(** * prompt_fab.templates: a shallow embedding of the bidirectional templates

    Python strings are modelled as lists of ASCII characters; the cursor
    ([StringPos]) is made explicit: every [_match] takes the text and the
    current position and returns the matched value with the new position.
    A Python [None] result of [_match] (the library's "no match") is the
    value [VNone]; exceptions and non-termination are outcomes of the small
    result monad below. *)

From Stdlib Require Import Ascii String ZArith Arith Lia Bool List.
From Stdlib Require Import DecimalZ.
#[local] Set Warnings "-register-all".
Import ListNotations.

Open Scope list_scope.

(** ** Outcomes of a Python computation *)

Inductive exn : Type :=
| AttributeError
| TypeError
| ValueError
| KeyError
| IndexError
| ReError.

(** [Ret] a returned value, [Exc] a raised exception, [Loop] a computation
    that never returns. *)
Inductive result (A : Type) : Type :=
| Ret (a : A)
| Exc (e : exn)
| Loop.

Arguments Ret {A} a.
Arguments Exc {A} e.
Arguments Loop {A}.

Definition bind {A B : Type} (x : result A) (k : A -> result B) : result B :=
  match x with
  | Ret a => k a
  | Exc e => Exc e
  | Loop => Loop
  end.

Notation "x <- m ;; k" := (bind m (fun x => k))
  (at level 61, m at next level, right associativity).

Fixpoint mapM {A B : Type} (f : A -> result B) (l : list A) : result (list B) :=
  match l with
  | [] => Ret []
  | a :: l' => b <- f a;; bs <- mapM f l';; Ret (b :: bs)
  end.

(** ** Text *)

Definition str := list ascii.

Definition txt (s : string) : str := list_ascii_of_string s.

Definition nl : ascii := ascii_of_nat 10.

Fixpoint str_eqb (a b : str) : bool :=
  match a, b with
  | [], [] => true
  | x :: a', y :: b' => Ascii.eqb x y && str_eqb a' b'
  | _, _ => false
  end.

Fixpoint str_prefixb (pre s : str) : bool :=
  match pre, s with
  | [], _ => true
  | x :: pre', y :: s' => Ascii.eqb x y && str_prefixb pre' s'
  | _ :: _, [] => false
  end.

(** Python's [sub in s] for strings. *)
Fixpoint str_containsb (sub s : str) : bool :=
  str_prefixb sub s ||
  match s with
  | [] => false
  | _ :: s' => str_containsb sub s'
  end.

Fixpoint str_join (sep : str) (parts : list str) : str :=
  match parts with
  | [] => []
  | [x] => x
  | x :: parts' => x ++ sep ++ str_join sep parts'
  end.

(** ** A fragment of Python's [re] module

    Regular expressions of the fragment: literal characters, [.], escapes,
    character classes, and the greedy quantifiers [*], [+] and [?].
    [ends r w] lists the lengths of the prefixes of [w] that [r] matches, in
    the order in which the backtracking matcher of [re] finds them, so that
    [re.match] returns the first one. *)

Inductive regex : Type :=
| REps
| RChar (c : ascii)
| RAny
| RSet (negated : bool) (ranges : list (ascii * ascii))
| RSeq (r1 r2 : regex)
| RStar (r : regex)
| ROpt (r : regex).

Definition in_ranges (c : ascii) (rs : list (ascii * ascii)) : bool :=
  existsb (fun lh => (nat_of_ascii (fst lh) <=? nat_of_ascii c)
                     && (nat_of_ascii c <=? nat_of_ascii (snd lh))) rs.

Definition one_char (ok : ascii -> bool) (w : str) : list nat :=
  match w with
  | x :: _ => if ok x then [1] else []
  | [] => []
  end.

(** A star iteration that matches the empty string ends the repetition, as
    the [re] engine refuses to loop on empty iterations. *)
Fixpoint ends (r : regex) (w : str) {struct r} : list nat :=
  match r with
  | REps => [0]
  | RChar c => one_char (fun x => Ascii.eqb x c) w
  | RAny => one_char (fun x => negb (Ascii.eqb x nl)) w
  | RSet neg rs => one_char (fun x => xorb neg (in_ranges x rs)) w
  | RSeq r1 r2 =>
      flat_map (fun k => map (Nat.add k) (ends r2 (skipn k w))) (ends r1 w)
  | RStar r1 =>
      (fix star (fuel : nat) (w : str) {struct fuel} : list nat :=
         match fuel with
         | 0 => [0]
         | S f =>
             flat_map (fun k => if k =? 0 then []
                                else map (Nat.add k) (star f (skipn k w)))
                      (ends r1 w) ++ [0]
         end) (S (length w)) w
  | ROpt r1 => ends r1 w ++ [0]
  end.

(** Escapes: [\n], [\t], [\r], and a backslash before a character that is
    not a letter or digit, which stands for that character. *)
Definition is_alnum (c : ascii) : bool :=
  let n := nat_of_ascii c in
  ((48 <=? n) && (n <=? 57)) || ((65 <=? n) && (n <=? 90))
  || ((97 <=? n) && (n <=? 122)).

Definition esc_char (c : ascii) : option ascii :=
  if Ascii.eqb c "n"%char then Some nl
  else if Ascii.eqb c "t"%char then Some (ascii_of_nat 9)
  else if Ascii.eqb c "r"%char then Some (ascii_of_nat 13)
  else if is_alnum c then None
  else Some c.

Definition digit_ranges : list (ascii * ascii) := [("0"%char, "9"%char)].

Definition space_ranges : list (ascii * ascii) :=
  [(" "%char, " "%char); (ascii_of_nat 9, ascii_of_nat 13)].

(** Escape inside or outside a class: its ranges. *)
Definition esc_ranges (c : ascii) : option (list (ascii * ascii)) :=
  if Ascii.eqb c "d"%char then Some digit_ranges
  else if Ascii.eqb c "s"%char then Some space_ranges
  else match esc_char c with
       | Some x => Some [(x, x)]
       | None => None
       end.

Fixpoint parse_class (fuel : nat) (w : str) (acc : list (ascii * ascii))
  : option (list (ascii * ascii) * str) :=
  match fuel with
  | 0 => None
  | S f =>
      match w with
      | [] => None
      | c :: rest =>
          if Ascii.eqb c "]"%char then
            match acc with
            | [] => None
            | _ => Some (acc, rest)
            end
          else if Ascii.eqb c "\"%char then
            match rest with
            | e :: rest' =>
                match esc_ranges e with
                | Some rs => parse_class f rest' (acc ++ rs)
                | None => None
                end
            | [] => None
            end
          else
            match rest with
            | m :: hi :: rest' =>
                if Ascii.eqb m "-"%char && negb (Ascii.eqb hi "]"%char) then
                  if Ascii.eqb hi "\"%char then None
                  else parse_class f rest' (acc ++ [(c, hi)])
                else parse_class f rest (acc ++ [(c, c)])
            | _ => parse_class f rest (acc ++ [(c, c)])
            end
      end
  end.

Definition is_special (c : ascii) : bool :=
  existsb (Ascii.eqb c) (list_ascii_of_string "()|^${}]*+?").

Definition is_quant (c : ascii) : bool :=
  existsb (Ascii.eqb c) (list_ascii_of_string "*+?{").

Definition parse_atom (fuel : nat) (w : str) : option (regex * str) :=
  match w with
  | [] => None
  | c :: rest =>
      if Ascii.eqb c "."%char then Some (RAny, rest)
      else if Ascii.eqb c "["%char then
        match rest with
        | n :: rest' =>
            if Ascii.eqb n "^"%char then
              match parse_class fuel rest' [] with
              | Some (rs, rest'') => Some (RSet true rs, rest'')
              | None => None
              end
            else
              match parse_class fuel rest [] with
              | Some (rs, rest'') => Some (RSet false rs, rest'')
              | None => None
              end
        | [] => None
        end
      else if Ascii.eqb c "\"%char then
        match rest with
        | e :: rest' =>
            if Ascii.eqb e "d"%char || Ascii.eqb e "s"%char then
              match esc_ranges e with
              | Some rs => Some (RSet false rs, rest')
              | None => None
              end
            else
              match esc_char e with
              | Some x => Some (RChar x, rest')
              | None => None
              end
        | [] => None
        end
      else if is_special c then None
      else Some (RChar c, rest)
  end.

Definition quantify (a : regex) (w : str) : option (regex * str) :=
  match w with
  | q :: rest =>
      let r := if Ascii.eqb q "*"%char then Some (RStar a)
               else if Ascii.eqb q "+"%char then Some (RSeq a (RStar a))
               else if Ascii.eqb q "?"%char then Some (ROpt a)
               else None in
      match r with
      | Some r' =>
          match rest with
          | q' :: _ => if is_quant q' then None else Some (r', rest)
          | [] => Some (r', rest)
          end
      | None => if Ascii.eqb q "{"%char then None else Some (a, w)
      end
  | [] => Some (a, w)
  end.

Fixpoint parse_seq (fuel : nat) (w : str) : option (list regex) :=
  match fuel with
  | 0 => None
  | S f =>
      match w with
      | [] => Some []
      | _ =>
          match parse_atom (length w) w with
          | Some (a, rest) =>
              match quantify a rest with
              | Some (r, rest') =>
                  match parse_seq f rest' with
                  | Some rs => Some (r :: rs)
                  | None => None
                  end
              | None => None
              end
          | None => None
          end
      end
  end.

(** [re.compile]; [None] for a pattern outside the fragment. *)
Definition re_compile (pat : str) : option regex :=
  match parse_seq (S (length pat)) pat with
  | Some rs => Some (fold_right RSeq REps rs)
  | None => None
  end.

(** [re.compile(pat).match(s, pos)], on the text from [pos] on: the length
    of the match, if any. *)
Definition re_match (pat : str) (w : str) : result (option nat) :=
  match re_compile pat with
  | Some r => Ret (hd_error (ends r w))
  | None => Exc ReError
  end.

(** ** Python values *)

Inductive value : Type :=
| VNone
| VBool (b : bool)
| VInt (z : Z)
| VStr (s : str)
| VTuple (l : list value)
| VList (l : list value)
| VDict (l : list (str * value)).

Definition is_none (v : value) : bool :=
  match v with VNone => true | _ => false end.

Fixpoint list_eqb {A : Type} (eqb : A -> A -> bool) (xs ys : list A) : bool :=
  match xs, ys with
  | [], [] => true
  | x :: xs', y :: ys' => eqb x y && list_eqb eqb xs' ys'
  | _, _ => false
  end.

(** [==] on the values that serve as keys ([True == 1] included). *)
Fixpoint py_eq (a b : value) {struct a} : bool :=
  match a, b with
  | VNone, VNone => true
  | VBool x, VBool y => Bool.eqb x y
  | VInt x, VInt y => Z.eqb x y
  | VBool x, VInt y => Z.eqb (Z.b2z x) y
  | VInt x, VBool y => Z.eqb x (Z.b2z y)
  | VStr x, VStr y => str_eqb x y
  | VTuple xs, VTuple ys => list_eqb py_eq xs ys
  | _, _ => false
  end.

Fixpoint hashable (v : value) : bool :=
  match v with
  | VList _ | VDict _ => false
  | VTuple l => forallb hashable l
  | _ => true
  end.

(** CPython's default limit on the decimal digits of an [int] converted
    from or to text ([sys.get_int_max_str_digits()], Python 3.11 on):
    [int(s)] and [str(i)] raise [ValueError] beyond it. *)
Definition int_max_str_digits : nat := 4300.

(** [str(i)] for an integer: the digits of [Z.to_int]. *)
Definition digit_char (n : nat) : ascii := ascii_of_nat (48 + n).

Fixpoint uint_to_str (u : Decimal.uint) : str :=
  match u with
  | Decimal.Nil => []
  | Decimal.D0 u' => digit_char 0 :: uint_to_str u'
  | Decimal.D1 u' => digit_char 1 :: uint_to_str u'
  | Decimal.D2 u' => digit_char 2 :: uint_to_str u'
  | Decimal.D3 u' => digit_char 3 :: uint_to_str u'
  | Decimal.D4 u' => digit_char 4 :: uint_to_str u'
  | Decimal.D5 u' => digit_char 5 :: uint_to_str u'
  | Decimal.D6 u' => digit_char 6 :: uint_to_str u'
  | Decimal.D7 u' => digit_char 7 :: uint_to_str u'
  | Decimal.D8 u' => digit_char 8 :: uint_to_str u'
  | Decimal.D9 u' => digit_char 9 :: uint_to_str u'
  end.

Definition show_Z (z : Z) : str :=
  match Z.to_int z with
  | Decimal.Pos u => uint_to_str u
  | Decimal.Neg u => "-"%char :: uint_to_str u
  end.

(** [str(v)] ([quoted = false]) and [repr(v)] ([quoted = true]); strings
    are shown between single quotes by [repr], which is exact for strings
    without quotes, backslashes or control characters. *)
Fixpoint py_show (quoted : bool) (v : value) {struct v} : str :=
  match v with
  | VNone => txt "None"
  | VBool true => txt "True"
  | VBool false => txt "False"
  | VInt z => show_Z z
  | VStr s => if quoted then txt "'" ++ s ++ txt "'" else s
  | VTuple [x] => txt "(" ++ py_show true x ++ txt ",)"
  | VTuple l => txt "(" ++ str_join (txt ", ") (map (py_show true) l) ++ txt ")"
  | VList l => txt "[" ++ str_join (txt ", ") (map (py_show true) l) ++ txt "]"
  | VDict l =>
      txt "{" ++ str_join (txt ", ")
        (map (fun kv => txt "'" ++ fst kv ++ txt "': " ++ py_show true (snd kv)) l)
      ++ txt "}"
  end.

(** [str(i)] and [repr(i)] succeed: [abs(i)] has at most
    [int_max_str_digits] digits. *)
Definition int_str_ok (z : Z) : bool :=
  length (show_Z (Z.abs z)) <=? int_max_str_digits.

(** Every integer that [v] holds can be shown. *)
Fixpoint str_ok (v : value) : bool :=
  match v with
  | VInt z => int_str_ok z
  | VTuple l | VList l => forallb str_ok l
  | VDict l =>
      (fix go (l : list (str * value)) : bool :=
         match l with
         | [] => true
         | kv :: l' => str_ok (snd kv) && go l'
         end) l
  | _ => true
  end.

Definition py_str (v : value) : result str :=
  if str_ok v then Ret (py_show false v) else Exc ValueError.

(** [int(s, base=10)] on the strings the pattern [-?[0-9]+] yields (an
    optional sign and decimal digits); [None] is the [ValueError], raised
    also for more than [int_max_str_digits] digits. *)
Definition digit_of (c : ascii) : option (Decimal.uint -> Decimal.uint) :=
  match nat_of_ascii c - 48 with
  | 0 => if Ascii.eqb c "0"%char then Some Decimal.D0 else None
  | 1 => if Ascii.eqb c "1"%char then Some Decimal.D1 else None
  | 2 => if Ascii.eqb c "2"%char then Some Decimal.D2 else None
  | 3 => if Ascii.eqb c "3"%char then Some Decimal.D3 else None
  | 4 => if Ascii.eqb c "4"%char then Some Decimal.D4 else None
  | 5 => if Ascii.eqb c "5"%char then Some Decimal.D5 else None
  | 6 => if Ascii.eqb c "6"%char then Some Decimal.D6 else None
  | 7 => if Ascii.eqb c "7"%char then Some Decimal.D7 else None
  | 8 => if Ascii.eqb c "8"%char then Some Decimal.D8 else None
  | 9 => if Ascii.eqb c "9"%char then Some Decimal.D9 else None
  | _ => None
  end.

Fixpoint str_to_uint (s : str) : option Decimal.uint :=
  match s with
  | [] => Some Decimal.Nil
  | c :: s' =>
      match digit_of c, str_to_uint s' with
      | Some d, Some u => Some (d u)
      | _, _ => None
      end
  end.

Definition digits_to_Z (s : str) (neg : bool) : option Z :=
  match s with
  | [] => None
  | _ =>
      if int_max_str_digits <? length s then None else
      match str_to_uint s with
      | Some u => Some (Z.of_int (if neg then Decimal.Neg u else Decimal.Pos u))
      | None => None
      end
  end.

Definition py_int (s : str) : option Z :=
  match s with
  | c :: s' =>
      if Ascii.eqb c "-"%char then digits_to_Z s' true
      else if Ascii.eqb c "+"%char then digits_to_Z s' false
      else digits_to_Z s false
  | [] => None
  end.

(** Iteration ([for x in v]), [len(v)], [k in v] and [v.get(k)]. *)
Definition py_iter (v : value) : result (list value) :=
  match v with
  | VTuple l | VList l => Ret l
  | VStr s => Ret (map (fun c => VStr [c]) s)
  | VDict l => Ret (map (fun kv => VStr (fst kv)) l)
  | _ => Exc TypeError
  end.

Definition py_len (v : value) : result nat :=
  match v with
  | VTuple l | VList l => Ret (length l)
  | VStr s => Ret (length s)
  | VDict l => Ret (length l)
  | _ => Exc TypeError
  end.

Definition dict_lookup (l : list (str * value)) (k : str) : option value :=
  match find (fun kv => str_eqb (fst kv) k) l with
  | Some kv => Some (snd kv)
  | None => None
  end.

Definition py_contains (v : value) (k : str) : result bool :=
  match v with
  | VDict l => Ret (match dict_lookup l k with Some _ => true | None => false end)
  | VTuple l | VList l => Ret (existsb (py_eq (VStr k)) l)
  | VStr s => Ret (str_containsb k s)
  | _ => Exc TypeError
  end.

Definition py_get (v : value) (k : str) : result value :=
  match v with
  | VDict l => Ret (match dict_lookup l k with Some x => x | None => VNone end)
  | _ => Exc AttributeError
  end.

(** [a + b] on strings. *)
Definition py_add (a b : value) : result value :=
  match a, b with
  | VStr x, VStr y => Ret (VStr (x ++ y))
  | _, _ => Exc TypeError
  end.

(** [sep.join(parts)]: every part must be a string. *)
Definition py_join (sep : str) (parts : list value) : result str :=
  xs <- mapM (fun v => match v with VStr s => Ret s | _ => Exc TypeError end) parts;;
  Ret (str_join sep xs).

(** ** Templates

    One constructor per template class. [TRaw o] is a Python object that is
    not a [Template], stored where a template is expected (the constructors
    of [Affix] and [Repeat] store their content or item as given).
    [TFixed default accepted_pattern]; [TNumberedList] keeps the fields of
    the [Repeat] it extends, whose item template is [Append(label, item)]. *)

Inductive template : Type :=
| TRaw (o : value)
| TFixed (default : str) (accepted_pattern : str)
| TPattern (pattern : str)
| TInteger
| TAppend (item_templates : list template)
| TRepeat (item_template delimiter : template) (trailing_delimiter : bool)
| TNumberedList (item_template delimiter : template)
    (trailing_delimiter : bool) (start_idx : Z)
| TAffix (prefix content : template) (suffix : option template)
| TRecord (fields : list (str * template))
| TOption (value_templates : list (value * template)).

(** ** [_match]: the cursor is the position [p] in [s] *)

(** [Fixed._match] and [Pattern._match]: the matched text. [Pattern._match]
    returns group 1 of a pattern with a group; the fragment has no group
    ([re_compile] refuses parentheses, and such a pattern raises [ReError]
    here), so [group_idx] is 0. *)
Definition regex_match (pat : str) (s : str) (p : nat) : result (value * nat) :=
  o <- re_match pat (skipn p s);;
  match o with
  | None => Ret (VNone, p)
  | Some k => Ret (VStr (firstn k (skipn p s)), p + k)
  end.

(** A pattern without parentheses has no group: [Pattern._match] returns
    its whole match. *)
Definition no_group (pat : str) : bool :=
  negb (existsb (Ascii.eqb "("%char) pat).

Definition integer_pattern : str := txt "-?[0-9]+".

(** [Integer._match]: [int(None)] raises [TypeError], caught like the
    [ValueError] of a malformed number: the cursor is reverted. *)
Definition integer_match (s : str) (p : nat) : result (value * nat) :=
  let revert_pos := p in
  x <- regex_match integer_pattern s p;;
  let '(m, p1) := x in
  match m with
  | VStr digits =>
      match py_int digits with
      | Some i => Ret (VInt i, p1)
      | None => Ret (VNone, revert_pos)
      end
  | _ => Ret (VNone, revert_pos)
  end.

(** The loop of [Repeat._match]: [mi] and [md] match the item and the
    delimiter at a position. The state is [(vals, pos, i_revert, last_dm)].
    An iteration that matches an item and a delimiter without moving the
    cursor is repeated by Python for ever; the fuel counts the other
    iterations, each of which advances the cursor within the text. *)
Fixpoint repeat_loop (mi md : nat -> result (value * nat)) (fuel : nat)
    (p : nat) (vals : list value) (i_revert : nat) (last_dm : value)
  : result (list value * nat * nat * value) :=
  match fuel with
  | 0 => Loop
  | S fuel' =>
      x <- mi p;;
      let '(m, p1) := x in
      if is_none m then Ret (vals, p1, i_revert, last_dm)
      else
        y <- md p1;;
        let '(dm, p2) := y in
        if is_none dm then Ret (vals ++ [m], p2, p1, dm)
        else if p2 =? p then Loop
        else repeat_loop mi md fuel' p2 (vals ++ [m]) p1 dm
  end.

Definition repeat_match (mi md : nat -> result (value * nat))
    (trailing_delimiter : bool) (s : str) (p : nat) : result (value * nat) :=
  x <- repeat_loop mi md (S (length s - p)) p [] p VNone;;
  let '(vals, q, i_revert, last_dm) := x in
  Ret (VList vals,
       if negb (is_none last_dm) && negb trailing_delimiter then i_revert
       else q).

(** [pair[1]]. *)
Definition py_index1 (v : value) : result value :=
  match v with
  | VTuple (_ :: y :: _) | VList (_ :: y :: _) => Ret y
  | VStr (_ :: c :: _) => Ret (VStr [c])
  | VTuple _ | VList _ | VStr _ => Exc IndexError
  | _ => Exc TypeError
  end.

(** The loops of [Append._match], [Record._match] and [Option._match];
    [mt] matches a sub-template at a position. *)
Fixpoint append_loop (mt : template -> nat -> result (value * nat))
    (ts : list template) (p : nat) (matches : list value)
  : result (value * nat) :=
  match ts with
  | [] => Ret (VTuple matches, p)
  | it :: ts' =>
      x <- mt it p;;
      let '(m, p1) := x in
      if is_none m then Ret (VNone, p1) else append_loop mt ts' p1 (matches ++ [m])
  end.

Fixpoint record_loop (mt : template -> nat -> result (value * nat))
    (fs : list (str * template)) (p : nat) (rec : list (str * value))
  : result (value * nat) :=
  match fs with
  | [] => Ret (VDict rec, p)
  | (name, ft) :: fs' =>
      x <- mt ft p;;
      let '(m, p1) := x in
      record_loop mt fs' p1 (if is_none m then rec else rec ++ [(name, m)])
  end.

Fixpoint option_loop (mt : template -> nat -> result (value * nat))
    (vts : list (value * template)) (p : nat) : result (value * nat) :=
  match vts with
  | [] => Ret (VNone, p)
  | (v, vt) :: vts' =>
      x <- mt vt p;;
      let '(m, p1) := x in
      if is_none m then option_loop mt vts' p1 else Ret (v, p1)
  end.

Fixpoint tmatch (t : template) (s : str) (p : nat) {struct t}
  : result (value * nat) :=
  match t with
  | TRaw _ => Exc AttributeError
  | TFixed _ pat => regex_match pat s p
  | TPattern pat => regex_match pat s p
  | TInteger => integer_match s p
  | TAppend ts => append_loop (fun it => tmatch it s) ts p []
  | TRepeat it d trailing => repeat_match (tmatch it s) (tmatch d s) trailing s p
  | TNumberedList it d trailing _ =>
      x <- repeat_match (tmatch it s) (tmatch d s) trailing s p;;
      let '(sm, q) := x in
      match sm with
      | VList pairs => ys <- mapM py_index1 pairs;; Ret (VList ys, q)
      | _ => Ret (VNone, q)
      end
  | TAffix pre c sfx =>
      x <- tmatch pre s p;;
      let '(pm, p1) := x in
      if is_none pm then Ret (VNone, p1)
      else
        y <- tmatch c s p1;;
        let '(cm, p2) := y in
        if is_none cm then Ret (VNone, p2)
        else
          match sfx with
          | None => Ret (cm, p2)
          | Some st => z <- tmatch st s p2;; Ret (cm, snd z)
          end
  | TRecord fs => record_loop (fun ft => tmatch ft s) fs p []
  | TOption vts => option_loop (fun vt => tmatch vt s) vts p
  end.

(** [Template.match(s, pos)]: a fresh cursor, and only the value is
    returned. *)
Definition match_ (t : template) (s : str) (pos : nat) : result value :=
  x <- tmatch t s pos;; Ret (fst x).

(** ** [fill] *)

(** [t.fill()] with no argument: only [Fixed.fill( *args)] accepts it; the
    other [fill] methods have a required parameter ([TypeError]). *)
Definition fill0 (t : template) : result str :=
  match t with
  | TFixed d _ => Ret d
  | TRaw _ => Exc AttributeError
  | _ => Exc TypeError
  end.

(** [self.value_templates[val]]. *)
Definition option_lookup (vts : list (value * template)) (v : value)
  : result template :=
  if hashable v then
    match find (fun kt => py_eq (fst kt) v) vts with
    | Some kt => Ret (snd kt)
    | None => Exc KeyError
    end
  else Exc TypeError.

(** The tail of [Repeat.fill]: [filled = d.join(parts)], then the trailing
    delimiter. *)
Definition repeat_join (d : str) (parts : list value) (trailing : bool)
  : result value :=
  filled <- py_join d parts;;
  Ret (VStr (if trailing then filled ++ d else filled)).

(** [range(start, start + n)]. *)
Fixpoint py_range (start : Z) (n : nat) : list Z :=
  match n with
  | 0 => []
  | S n' => start :: py_range (start + 1) n'
  end.

(** A pair drawn from [zip(map(str, range(...)), values)]: [str] is applied
    to the label when the pair is drawn, before the pair is filled. *)
Definition numbered_pair (lv : Z * value) : result value :=
  l <- py_str (VInt (fst lv));; Ret (VTuple [VStr l; snd lv]).

(** The loops of [Append.fill] ([zip] stops at the shorter sequence) and
    [Record.fill]; [mf] fills a sub-template. *)
Fixpoint append_fill_loop (mf : template -> value -> result value)
    (ts : list template) (items : list value) : result (list value) :=
  match ts, items with
  | it :: ts', i :: items' =>
      x <- mf it i;; xs <- append_fill_loop mf ts' items';; Ret (x :: xs)
  | _, _ => Ret []
  end.

Fixpoint record_fill_loop (mf : template -> value -> result value)
    (rec : value) (fs : list (str * template)) : result (list value) :=
  match fs with
  | [] => Ret []
  | (name, ft) :: fs' =>
      b <- py_contains rec name;;
      if b then
        x <- (g <- py_get rec name;; mf ft g);;
        xs <- record_fill_loop mf rec fs';; Ret (x :: xs)
      else record_fill_loop mf rec fs'
  end.

Fixpoint fill (t : template) (v : value) {struct t} : result value :=
  match t with
  | TRaw _ => Exc AttributeError
  | TFixed d _ => Ret (VStr d)
  | TPattern _ => if is_none v then Ret (VStr []) else Ret v
  | TInteger =>
      if is_none v then Ret (VStr []) else x <- py_str v;; Ret (VStr x)
  | TAppend ts =>
      if is_none v then Ret (VStr []) else
      items <- py_iter v;;
      parts <- append_fill_loop fill ts items;;
      x <- py_join [] parts;; Ret (VStr x)
  | TRepeat it d trailing =>
      if is_none v then Ret (VStr []) else
      dt <- fill0 d;;
      values <- py_iter v;;
      parts <- mapM (fill it) values;;
      repeat_join dt parts trailing
  | TNumberedList it d trailing start_idx =>
      if is_none v then Ret (VStr []) else
      n <- py_len v;;
      values <- py_iter v;;
      dt <- fill0 d;;
      parts <- mapM (fun lv => pair <- numbered_pair lv;; fill it pair)
                    (combine (py_range start_idx n) values);;
      repeat_join dt parts trailing
  | TAffix pre c sfx =>
      a <- fill0 pre;;
      b <- fill c v;;
      filled <- py_add (VStr a) b;;
      match sfx with
      | Some st =>
          if is_none v then Ret filled
          else sd <- fill0 st;; py_add filled (VStr sd)
      | None => Ret filled
      end
  | TRecord fs =>
      if is_none v then Ret (VStr []) else
      parts <- record_fill_loop fill v fs;;
      x <- py_join [] parts;; Ret (VStr x)
  | TOption vts =>
      if is_none v then Ret (VStr []) else
      vt <- option_lookup vts v;;
      x <- fill0 vt;; Ret (VStr x)
  end.

(** ** Constructors

    An argument of a constructor is a template or another Python object. *)

Inductive arg : Type :=
| ATmpl (t : template)
| AObj (o : value).

(** The object [Fixed(default)]: the accepted pattern is the default
    itself. *)
Definition Fixed (default : str) : template := TFixed default default.

(** The call [Fixed(default)]: [__init__] compiles [default], and
    [re.compile] raises [re.error] for a pattern that does not compile
    ([re_compile] refuses also the patterns outside the fragment). *)
Definition Fixed_init (default : str) : result template :=
  match re_compile default with
  | Some _ => Ret (Fixed default)
  | None => Exc ReError
  end.

Definition str_to_fixed (a : arg) : result template :=
  match a with
  | ATmpl t => Ret t
  | AObj (VStr s) => Fixed_init s
  | AObj _ => Exc ValueError
  end.

(** An argument stored without conversion. *)
Definition stored (a : arg) : template :=
  match a with
  | ATmpl t => t
  | AObj o => TRaw o
  end.

Definition NOTHING : template := Fixed [].

(** The object [Pattern(pattern)]; [__init__] compiles the pattern, as the
    patterns of the templates below do. *)
Definition Pattern (pattern : str) : template := TPattern pattern.

Definition Integer : template := TInteger.

Definition Append (item_templates : list arg) : result template :=
  ts <- mapM str_to_fixed item_templates;; Ret (TAppend ts).

Definition Repeat (item_template delimiter : arg) (trailing_delimiter : bool)
  : result template :=
  d <- str_to_fixed delimiter;;
  Ret (TRepeat (stored item_template) d trailing_delimiter).

Definition NumberedList (label_template item_template delimiter : arg)
    (trailing_delimiter : bool) (start_idx : Z) : result template :=
  it <- Append [label_template; item_template];;
  d <- str_to_fixed delimiter;;
  Ret (TNumberedList it d trailing_delimiter start_idx).

(** [Affix(prefix, content, suffix)]; a [suffix] of [None] is no suffix. *)
Definition Affix (prefix content suffix : arg) : result template :=
  p <- str_to_fixed prefix;;
  sfx <- (match suffix with
          | AObj VNone => Ret None
          | a => t <- str_to_fixed a;; Ret (Some t)
          end);;
  Ret (TAffix p (stored content) sfx).

Definition Suffix (content suffix : arg) : result template :=
  Affix (ATmpl NOTHING) content suffix.

Definition Prefix := Affix.

Definition Record (fields : list (str * arg)) : result template :=
  fs <- mapM (fun nf => t <- str_to_fixed (snd nf);; Ret (fst nf, t)) fields;;
  Ret (TRecord fs).

Definition Option (value_templates : list (value * arg)) : result template :=
  vts <- mapM (fun vt => t <- str_to_fixed (snd vt);; Ret (fst vt, t))
              value_templates;;
  Ret (TOption vts).

(** The predefined instances. *)
Definition SENTENCE : template := Pattern (txt "[^\n\.\?\!]+[\.\?\!]?").

Definition EOL : template := Fixed [nl].

Definition SPACE : template := TFixed (txt " ") (txt " +").

Definition YES_NO : template :=
  TOption [(VBool false, Fixed (txt "No")); (VBool true, Fixed (txt "Yes"))].

Definition NUM : template := Integer.

(** ** Templates of the examples

    A template is built by its constructor, then filled or matched. *)

Definition build_fill (t : result template) (v : value) : result value :=
  x <- t;; fill x v.

Definition build_tmatch (t : result template) (s : str) (pos : nat)
  : result (value * nat) :=
  x <- t;; tmatch x s pos.

Definition build_match (t : result template) (s : str) (pos : nat)
  : result value :=
  x <- t;; match_ x s pos.

(** [NumberedList(Suffix(NUM, ". "), SENTENCE, EOL, trailing_delimiter)]. *)
Definition numbered_sentences (trailing : bool) : result template :=
  label <- Suffix (ATmpl NUM) (AObj (VStr (txt ". ")));;
  NumberedList (ATmpl label) (ATmpl SENTENCE) (ATmpl EOL) trailing 1.

(** [Repeat(Pattern("[a-z]+"), ",", trailing_delimiter)]. *)
Definition letters : template := Pattern (txt "[a-z]+").

Definition letter_list (trailing : bool) : result template :=
  Repeat (ATmpl letters) (AObj (VStr (txt ","))) trailing.

(** [Option({1: "a", 2: "ab"})]. *)
Definition one_or_two : result template :=
  Option [(VInt 1, AObj (VStr (txt "a"))); (VInt 2, AObj (VStr (txt "ab")))].

(** [Append(NUM, NUM)]. *)
Definition two_numbers : result template := Append [ATmpl NUM; ATmpl NUM].


(** [Affix("Q: ", "x")] and [Suffix("x", ".")]: bare strings as content. *)
Definition question_x : result template :=
  Affix (AObj (VStr (txt "Q: "))) (AObj (VStr (txt "x"))) (AObj VNone).

Definition x_dot : result template :=
  Suffix (AObj (VStr (txt "x"))) (AObj (VStr (txt "."))).

(** ** Induction on templates, through their lists of sub-templates *)

Section TemplateInd.

Variable P : template -> Prop.

Hypothesis H_raw : forall o, P (TRaw o).
Hypothesis H_fixed : forall d pat, P (TFixed d pat).
Hypothesis H_pattern : forall pat, P (TPattern pat).
Hypothesis H_integer : P TInteger.
Hypothesis H_append : forall ts, Forall P ts -> P (TAppend ts).
Hypothesis H_repeat : forall it d tr, P it -> P d -> P (TRepeat it d tr).
Hypothesis H_numbered :
  forall it d tr st, P it -> P d -> P (TNumberedList it d tr st).
Hypothesis H_affix :
  forall pre c sfx, P pre -> P c ->
  match sfx with Some st => P st | None => True end -> P (TAffix pre c sfx).
Hypothesis H_record :
  forall fs, Forall (fun nf => P (snd nf)) fs -> P (TRecord fs).
Hypothesis H_option :
  forall vts, Forall (fun vt => P (snd vt)) vts -> P (TOption vts).

Fixpoint template_ind' (t : template) : P t :=
  match t with
  | TRaw o => H_raw o
  | TFixed d pat => H_fixed d pat
  | TPattern pat => H_pattern pat
  | TInteger => H_integer
  | TAppend ts =>
      H_append ts
        ((fix go (ts : list template) : Forall P ts :=
            match ts with
            | [] => Forall_nil P
            | t' :: ts' => Forall_cons t' (template_ind' t') (go ts')
            end) ts)
  | TRepeat it d tr => H_repeat it d tr (template_ind' it) (template_ind' d)
  | TNumberedList it d tr st =>
      H_numbered it d tr st (template_ind' it) (template_ind' d)
  | TAffix pre c sfx =>
      H_affix pre c sfx (template_ind' pre) (template_ind' c)
        (match sfx return match sfx with Some st => P st | None => True end with
         | Some st => template_ind' st
         | None => I
         end)
  | TRecord fs =>
      H_record fs
        ((fix go (fs : list (str * template)) : Forall (fun nf => P (snd nf)) fs :=
            match fs with
            | [] => Forall_nil _
            | nf :: fs' => Forall_cons nf (template_ind' (snd nf)) (go fs')
            end) fs)
  | TOption vts =>
      H_option vts
        ((fix go (vts : list (value * template))
            : Forall (fun vt => P (snd vt)) vts :=
            match vts with
            | [] => Forall_nil _
            | vt :: vts' => Forall_cons vt (template_ind' (snd vt)) (go vts')
            end) vts)
  end.

End TemplateInd.

(** A matcher that never moves the cursor back. *)
Definition advances (mt : nat -> result (value * nat)) : Prop :=
  forall p v q, mt p = Ret (v, q) -> p <= q.

(** ** Induction on values, through the items of a tuple *)

Section ValueInd.

Variable P : value -> Prop.

Hypothesis H_tuple : forall l, Forall P l -> P (VTuple l).
Hypothesis H_other : forall v, (forall l, v <> VTuple l) -> P v.

Fixpoint value_ind' (v : value) : P v :=
  match v with
  | VTuple l =>
      H_tuple l
        ((fix go (l : list value) : Forall P l :=
            match l with
            | [] => Forall_nil P
            | x :: l' => Forall_cons x (value_ind' x) (go l')
            end) l)
  | VNone => H_other VNone (fun l E => ltac:(discriminate E))
  | VBool b => H_other (VBool b) (fun l E => ltac:(discriminate E))
  | VInt z => H_other (VInt z) (fun l E => ltac:(discriminate E))
  | VStr w => H_other (VStr w) (fun l E => ltac:(discriminate E))
  | VList l0 => H_other (VList l0) (fun l E => ltac:(discriminate E))
  | VDict l0 => H_other (VDict l0) (fun l E => ltac:(discriminate E))
  end.

End ValueInd.

(** ** Renderings that read back

    [RT t v f rest]: [t.fill(v)] is the text [f], and [t] reads [f] back as
    [v] when [f] is followed by [rest] in the text being matched. [RTs] is
    the same for the items of an [Append] or the fields of a [Record], and
    [Chain it d pat] for the items of a [Repeat] whose delimiter
    [Fixed(d, pat)] separates them. The premises say when a rendering is
    unambiguous: every part ends where the match of its template stops (a
    [Pattern] or [Fixed] accepts exactly its part first, an [Integer] is not
    followed by a digit), a [Pattern] has no group, an [Integer] can be
    shown ([int_str_ok]), the [Option] entries before the chosen one do not
    accept the text, and a [Repeat] stops after its last item. *)

Definition starts_with_digit (w : str) : bool :=
  match w with
  | c :: _ => in_ranges c digit_ranges
  | [] => false
  end.

(** [t] fails where [rest] begins and leaves the cursor there. *)
Definition fails_at (t : template) (rest : str) : Prop :=
  forall s p, skipn p s = rest -> tmatch t s p = Ret (VNone, p).

(** [t] fails where [rest] begins. *)
Definition fails_from (t : template) (rest : str) : Prop :=
  forall s p, skipn p s = rest -> exists q, tmatch t s p = Ret (VNone, q).

(** After the last item of a [Repeat] without trailing delimiter, the
    delimiter does not match, or it matches a non-empty text after which no
    item follows. *)
Definition repeat_end (it : template) (pat : str) (rest : str) : Prop :=
  re_match pat rest = Ret None \/
  exists k, re_match pat rest = Ret (Some k) /\ 0 < k /\
            fails_from it (skipn k rest).

Inductive RT : template -> value -> str -> str -> Prop :=
| RT_fixed : forall d pat rest,
    re_match pat (d ++ rest) = Ret (Some (length d)) ->
    RT (TFixed d pat) (VStr d) d rest
| RT_pattern : forall pat w rest,
    no_group pat = true ->
    re_match pat (w ++ rest) = Ret (Some (length w)) ->
    RT (TPattern pat) (VStr w) w rest
| RT_integer : forall z rest,
    int_str_ok z = true -> starts_with_digit rest = false ->
    RT TInteger (VInt z) (show_Z z) rest
| RT_append : forall ts vs f rest,
    RTs ts vs f rest -> RT (TAppend ts) (VTuple vs) f rest
| RT_record : forall fs vs f rest,
    NoDup (map fst fs) -> RTs (map snd fs) vs f rest ->
    RT (TRecord fs) (VDict (combine (map fst fs) vs)) f rest
| RT_option : forall l1 v d pat l2 rest,
    v <> VNone -> hashable v = true ->
    Forall (fun kt => py_eq (fst kt) v = false /\
              exists d' pat', snd kt = TFixed d' pat' /\
                              re_match pat' (d ++ rest) = Ret None) l1 ->
    re_match pat (d ++ rest) = Ret (Some (length d)) ->
    RT (TOption (l1 ++ (v, TFixed d pat) :: l2)) v d rest
| RT_repeat : forall it d pat vs f rest,
    Chain it d pat vs f rest -> repeat_end it pat rest ->
    RT (TRepeat it (TFixed d pat) false) (VList vs) f rest
| RT_repeat_nil : forall it d pat rest,
    fails_at it rest ->
    RT (TRepeat it (TFixed d pat) false) (VList []) [] rest
| RT_repeat_trailing : forall it d pat vs f rest,
    d <> [] -> Chain it d pat vs f (d ++ rest) ->
    re_match pat (d ++ rest) = Ret (Some (length d)) ->
    fails_at it rest ->
    RT (TRepeat it (TFixed d pat) true) (VList vs) (f ++ d) rest
with RTs : list template -> list value -> str -> str -> Prop :=
| RTs_nil : forall rest, RTs [] [] [] rest
| RTs_cons : forall t ts v vs f fs rest,
    RT t v f (fs ++ rest) -> RTs ts vs fs rest ->
    RTs (t :: ts) (v :: vs) (f ++ fs) rest
with Chain : template -> str -> str -> list value -> str -> str -> Prop :=
| Chain_one : forall it d pat v f rest,
    RT it v f rest -> Chain it d pat [v] f rest
| Chain_cons : forall it d pat v vs f fs rest,
    d <> [] -> RT it v f (d ++ fs ++ rest) ->
    re_match pat (d ++ fs ++ rest) = Ret (Some (length d)) ->
    Chain it d pat vs fs rest ->
    Chain it d pat (v :: vs) (f ++ d ++ fs) rest.

Scheme RT_mut := Minimality for RT Sort Prop
with RTs_mut := Minimality for RTs Sort Prop
with Chain_mut := Minimality for Chain Sort Prop.

(** ** Reading back a rendering *)

(** The class [[0-9]] and its members. *)
Definition digit_set : regex := RSet false digit_ranges.

Definition is_digit (c : ascii) : bool := in_ranges c digit_ranges.

(** What a rendering that reads back gives: [reads_back] for one template,
    [reads_back_all] for the items of an [Append] (its [fill] and [_match]
    loops) and the fields of a [Record] (under any field names), and
    [reads_back_chain] for the items of a [Repeat]: its [fill] parts, and
    the iterations of its loop up to the delimiter after the last item. *)
Definition reads_back (t : template) (v : value) (f rest : str) : Prop :=
  fill t v = Ret (VStr f) /\
  (forall s p, skipn p s = f ++ rest -> tmatch t s p = Ret (v, p + length f)).

Definition reads_back_all (ts : list template) (vs : list value) (f rest : str) : Prop :=
  length vs = length ts /\
  (exists parts, append_fill_loop fill ts vs = Ret (map VStr parts) /\
     concat parts = f /\
     (forall names recd, length names = length ts ->
        Forall2 (fun n v => dict_lookup recd n = Some v) names vs ->
        record_fill_loop fill (VDict recd) (combine names ts) = Ret (map VStr parts))) /\
  (forall s p acc, skipn p s = f ++ rest ->
     append_loop (fun it => tmatch it s) ts p acc
     = Ret (VTuple (acc ++ vs), p + length f)) /\
  (forall names s p rec, length names = length ts -> skipn p s = f ++ rest ->
     record_loop (fun ft => tmatch ft s) (combine names ts) p rec
     = Ret (VDict (rec ++ combine names vs), p + length f)).

Definition reads_back_chain (it : template) (d pat : str) (vs : list value)
    (f rest : str) : Prop :=
  length vs <= length f + 1 /\
  (exists parts, mapM (fill it) vs = Ret (map VStr parts) /\
     str_join d parts = f /\ parts <> []) /\
  (forall s p vals ir dm fuel, skipn p s = f ++ rest -> length vs <= fuel ->
     exists st, st <= p + length f /\
     repeat_loop (tmatch it s) (tmatch (TFixed d pat) s) fuel p vals ir dm =
     (y <- tmatch (TFixed d pat) s (p + length f);;
      let '(dm2, p2) := y in
      if is_none dm2 then Ret (vals ++ vs, p2, p + length f, dm2)
      else if p2 =? st then Loop
      else repeat_loop (tmatch it s) (tmatch (TFixed d pat) s) (fuel - length vs)
             p2 (vals ++ vs) (p + length f) dm2)).

(** [Repeat(Append(NUM, SPACE, YES_NO), ",")]: rows such as ["12 Yes"]. *)
Definition yes_no_rows : template :=
  TRepeat (TAppend [NUM; SPACE; YES_NO]) (Fixed (txt ",")) false.

Definition yes_no_rows_value : value :=
  VList [VTuple [VInt 12; VStr (txt " "); VBool true];
         VTuple [VInt (-3); VStr (txt " "); VBool false]].

(** ** Cursor bounds, character runs and further templates *)

(** [mt] never moves the cursor past [max p n] from [p]: with [n] the
    length of the text, a match that starts inside the text ends there. *)
Definition within (n : nat) (mt : nat -> result (value * nat)) : Prop :=
  forall p v q, mt p = Ret (v, q) -> q <= Nat.max p n.

(** The first character of [w] satisfies [ok]. *)
Definition first_is (ok : ascii -> bool) (w : str) : bool :=
  match w with
  | c :: _ => ok c
  | [] => false
  end.

(** The characters excluded by the class [[^\n\.\?\!]] of [SENTENCE], and
    the ones its optional class [[\.\?\!]] accepts. *)
Definition sentence_stop (c : ascii) : bool :=
  existsb (Ascii.eqb c) [nl; "."%char; "?"%char; "!"%char].

Definition sentence_end (c : ascii) : bool :=
  existsb (Ascii.eqb c) ["."%char; "?"%char; "!"%char].

(** The two classes of the compiled pattern of [SENTENCE]. *)
Definition sentence_body : regex :=
  RSet true [(nl, nl); ("."%char, "."%char); ("?"%char, "?"%char); ("!"%char, "!"%char)].

Definition sentence_tail : regex :=
  RSet false [("."%char, "."%char); ("?"%char, "?"%char); ("!"%char, "!"%char)].

(** [Pattern('a*')], which also matches the empty text. *)
Definition a_star : template := Pattern (txt "a*").

(** [Record(a=NUM, b=NUM)]. *)
Definition num_pair : template := TRecord [(txt "a", NUM); (txt "b", NUM)].

(** [Record(a=Affix(NUM, ' '), b=NUM)], from the docstring of [Record]. *)
Definition record_doc : result template :=
  a <- Affix (ATmpl NUM) (AObj (VStr (txt " "))) (AObj VNone);;
  Record [(txt "a", ATmpl a); (txt "b", ATmpl NUM)].

(** ** [example.py] *)

(** The double quote character. *)
Definition dq : ascii := ascii_of_nat 34.

Definition example_header : str :=
  txt "Answer " ++ [dq] ++ txt "Yes" ++ [dq] ++ txt " or " ++ [dq] ++ txt "No" ++
  [dq] ++ txt " to the following questions." ++ [nl; nl].

(** The template of [example.py]. *)
Definition example_template : result template :=
  question <- Affix (AObj (VStr (txt "Q: "))) (ATmpl SENTENCE) (ATmpl EOL);;
  answer <- Prefix (AObj (VStr (txt "A: "))) (ATmpl YES_NO) (AObj VNone);;
  rec <- Record [(txt "question", ATmpl question); (txt "answer", ATmpl answer)];;
  rows <- Repeat (ATmpl rec) (AObj (VStr [nl; nl])) false;;
  Prefix (AObj (VStr example_header)) (ATmpl rows) (AObj VNone).

(** Its parts, as the constructors build them. *)
Definition example_question : template := TAffix (Fixed (txt "Q: ")) SENTENCE (Some EOL).

Definition example_answer : template := TAffix (Fixed (txt "A: ")) YES_NO None.

Definition example_record : template :=
  TRecord [(txt "question", example_question); (txt "answer", example_answer)].

(** A row of the data: [{'question': q, 'answer': a}]. *)
Definition example_row (q a : value) : value :=
  VDict [(txt "question", q); (txt "answer", a)].

(** What [YES_NO] renders for a boolean. *)
Definition yes_no_text (b : bool) : str := if b then txt "Yes" else txt "No".

(** The context examples and the query of [example.py]. *)
Definition sky : str := txt "Is the sky blue?".

Definition example_context : list value :=
  [example_row (VStr sky) (VBool true);
   example_row (VStr (txt "Can fish play basketball?")) (VBool false)].

Definition example_query : value := VStr (txt "Can you eat soup with a spoon?").

(** * Properties *)

(** ** Template.match *)

(** C1 (counterexample): [NUM.match("12x")] returns the integer 12 alone,
    not a pair of a value and an end position. *)
Lemma C1_match_not_pair :
  match_ NUM (txt "12x") 0 = Ret (VInt 12) /\
  ~ (exists v e, match_ NUM (txt "12x") 0 = Ret (VTuple [v; VInt e])).
Proof.
  split.
  - reflexivity.
  - intros [v [e H]]. vm_compute in H. discriminate H.
Qed.

(** C1 (amended): [T.match(s, p)] returns only the value that [_match]
    yields on a fresh cursor at [p] (and raises what it raises); the end
    position is not returned: ["12x"] and ["12"] give the same result
    although the match ends before the end of the first text. *)
Theorem C1_match_value_only :
  (forall t s p v q, tmatch t s p = Ret (v, q) -> match_ t s p = Ret v) /\
  (forall t s p e, tmatch t s p = Exc e -> match_ t s p = Exc e) /\
  tmatch NUM (txt "12x") 0 = Ret (VInt 12, 2) /\
  tmatch NUM (txt "12") 0 = Ret (VInt 12, 2) /\
  match_ NUM (txt "12x") 0 = match_ NUM (txt "12") 0.
Proof.
  refine (conj _ (conj _ (conj _ (conj _ _)))).
  - intros t s p v q H. unfold match_. rewrite H. reflexivity.
  - intros t s p e H. unfold match_. rewrite H. reflexivity.
  - reflexivity.
  - reflexivity.
  - reflexivity.
Qed.

(** ** NumberedList *)

(** C3 (counterexample): the numbered list of two sentences does not end
    with a newline. *)
Lemma C3_no_final_newline :
  build_fill (numbered_sentences false)
    (VList [VStr (txt "First."); VStr (txt "Second.")])
  <> Ret (VStr (txt "1. First." ++ [nl] ++ txt "2. Second." ++ [nl])).
Proof.
  vm_compute. intro H. discriminate H.
Qed.

(** C3 (amended): the items are numbered from 1 and separated by newlines;
    a newline follows the last item only with [trailing_delimiter=True]. *)
Theorem C3_numbered_fill :
  build_fill (numbered_sentences false)
    (VList [VStr (txt "First."); VStr (txt "Second.")])
  = Ret (VStr (txt "1. First." ++ [nl] ++ txt "2. Second.")) /\
  build_fill (numbered_sentences true)
    (VList [VStr (txt "First."); VStr (txt "Second.")])
  = Ret (VStr (txt "1. First." ++ [nl] ++ txt "2. Second." ++ [nl])).
Proof.
  split; vm_compute; reflexivity.
Qed.

(** ** Append.fill *)

(** C4 (counterexample): [Append(NUM, NUM).fill((1,))] and
    [Append(NUM, NUM).fill((1, 2, 3))] raise nothing. *)
Lemma C4_wrong_arity_no_error :
  build_fill two_numbers (VTuple [VInt 1]) = Ret (VStr (txt "1")) /\
  build_fill two_numbers (VTuple [VInt 1; VInt 2; VInt 3])
  = Ret (VStr (txt "12")).
Proof.
  split; reflexivity.
Qed.

Lemma append_fill_loop_zip :
  forall (mf : template -> value -> result value) ts items,
  append_fill_loop mf ts items
  = append_fill_loop mf (firstn (length items) ts) (firstn (length ts) items).
Proof.
  intros mf ts. induction ts as [| t ts IH]; intros items.
  - destruct items; reflexivity.
  - destruct items as [| i items].
    + reflexivity.
    + simpl. rewrite (IH items). reflexivity.
Qed.

(** C4 (amended): [Append.fill] zips its sub-templates with the items: with
    a different number of items it raises nothing and fills the common
    prefix, the longer of the two sequences being cut to the shorter. *)
Theorem C4_append_fill_truncates :
  forall ts items,
  fill (TAppend ts) (VTuple items)
  = fill (TAppend (firstn (length items) ts)) (VTuple (firstn (length ts) items)) /\
  fill (TAppend ts) (VList items)
  = fill (TAppend (firstn (length items) ts)) (VList (firstn (length ts) items)).
Proof.
  intros ts items. split; simpl; rewrite (append_fill_loop_zip fill ts items);
    reflexivity.
Qed.

(** ** Repeat *)

(** C5: with delimiter [","] and items rendering ["a"] and ["b"]: without a
    trailing delimiter the fill is ["a,b"], and matching ["a,b,"] from 0
    reads [["a", "b"]] with the cursor rolled back to 3, before the last
    comma; with a trailing delimiter the fill is ["a,b,"]. *)
Theorem C5_trailing_delimiter_law :
  build_fill (letter_list false) (VList [VStr (txt "a"); VStr (txt "b")])
  = Ret (VStr (txt "a,b")) /\
  build_tmatch (letter_list false) (txt "a,b,") 0
  = Ret (VList [VStr (txt "a"); VStr (txt "b")], 3) /\
  build_match (letter_list false) (txt "a,b,") 0
  = Ret (VList [VStr (txt "a"); VStr (txt "b")]) /\
  build_fill (letter_list true) (VList [VStr (txt "a"); VStr (txt "b")])
  = Ret (VStr (txt "a,b,")).
Proof.
  refine (conj _ (conj _ (conj _ _))); vm_compute; reflexivity.
Qed.

(** ** Affix *)

(** C6: once the prefix and the content have matched, a [Fixed] suffix is
    attempted and its outcome ignored: the cursor moves past the suffix when
    it matches and stays after the content when it does not; the value is
    the content's in both cases. *)
Theorem C6_affix_suffix_unchecked :
  forall pre c d pat s p pv p1 v p2,
  tmatch pre s p = Ret (pv, p1) -> pv <> VNone ->
  tmatch c s p1 = Ret (v, p2) -> v <> VNone ->
  tmatch (TAffix pre c (Some (TFixed d pat))) s p
  = (o <- re_match pat (skipn p2 s);;
     Ret (v, match o with Some k => p2 + k | None => p2 end)).
Proof.
  intros pre c d pat s p pv p1 v p2 Hpre Hpv Hc Hv. simpl.
  rewrite Hpre. simpl.
  destruct pv; try (exfalso; apply Hpv; reflexivity); simpl;
    rewrite Hc; simpl;
    (destruct v; try (exfalso; apply Hv; reflexivity); simpl;
     unfold regex_match; destruct (re_match pat (skipn p2 s)) as [[k|]| |];
     reflexivity).
Qed.

(** C6 at [Suffix(NUM, ". ")]: on ["1. "] the suffix is consumed, on
    ["1x"] it is not, and 1 is read in both cases. *)
Lemma C6_affix_suffix_unchecked_witness :
  build_tmatch (Suffix (ATmpl NUM) (AObj (VStr (txt ". ")))) (txt "1. ") 0
  = Ret (VInt 1, 3) /\
  build_tmatch (Suffix (ATmpl NUM) (AObj (VStr (txt ". ")))) (txt "1x") 0
  = Ret (VInt 1, 1) /\
  tmatch (TAffix NOTHING NUM (Some (Fixed (txt ". ")))) (txt "1x") 0
  = (o <- re_match (txt ". ") (skipn 1 (txt "1x"));;
     Ret (VInt 1, match o with Some k => 1 + k | None => 1 end)).
Proof.
  refine (conj _ (conj _ _)).
  - vm_compute. reflexivity.
  - vm_compute. reflexivity.
  - apply (C6_affix_suffix_unchecked NOTHING NUM (txt ". ") (txt ". ")
             (txt "1x") 0 (VStr []) 0 (VInt 1) 1).
    + vm_compute. reflexivity.
    + discriminate.
    + vm_compute. reflexivity.
    + discriminate.
Defined.

(** ** Record *)

Lemma record_loop_acc :
  forall mt fs p rec,
  record_loop mt fs p rec
  = (x <- record_loop mt fs p [];;
     match x with
     | (VDict r, q) => Ret (VDict (rec ++ r), q)
     | _ => Ret x
     end).
Proof.
  intros mt fs. induction fs as [| [name ft] fs IH]; intros p rec.
  - simpl. rewrite app_nil_r. reflexivity.
  - simpl. destruct (mt ft p) as [[m p1]| |]; simpl; try reflexivity.
    destruct (is_none m).
    + apply (IH p1 rec).
    + rewrite (IH p1 (rec ++ [(name, m)])). rewrite (IH p1 [(name, m)]).
      destruct (record_loop mt fs p1 []) as [[r q]| |]; simpl; try reflexivity.
      destruct r; try reflexivity.
      rewrite <- app_assoc. reflexivity.
Qed.

Lemma record_loop_dict :
  forall mt fs p rec v q,
  record_loop mt fs p rec = Ret (v, q) -> exists r, v = VDict r.
Proof.
  intros mt fs. induction fs as [| [name ft] fs IH]; intros p rec v q H.
  - simpl in H. inversion H. eexists. reflexivity.
  - simpl in H. destruct (mt ft p) as [[m p1]| |]; simpl in H; try discriminate.
    eapply IH. exact H.
Qed.

(** C7: [Record._match] never reports failure: on return its value is a
    mapping. Its fields are tried in order at the advancing cursor; a field
    that does not match is left out and matching goes on with the next
    field from where the failed attempt left the cursor. *)
Theorem C7_record_never_fails :
  (forall fs s p v q, tmatch (TRecord fs) s p = Ret (v, q) ->
                      exists rec, v = VDict rec) /\
  (forall s p, tmatch (TRecord []) s p = Ret (VDict [], p)) /\
  (forall name ft fs s p,
     tmatch (TRecord ((name, ft) :: fs)) s p
     = (x <- tmatch ft s p;;
        let '(m, p1) := x in
        y <- tmatch (TRecord fs) s p1;;
        match y with
        | (VDict rec, q) =>
            Ret (VDict (if is_none m then rec else (name, m) :: rec), q)
        | _ => Ret y
        end)).
Proof.
  refine (conj _ (conj _ _)).
  - intros fs s p v q H. simpl in H. eapply record_loop_dict. exact H.
  - reflexivity.
  - intros name ft fs s p. simpl.
    destruct (tmatch ft s p) as [[m p1]| |]; simpl; try reflexivity.
    rewrite record_loop_acc.
    destruct (record_loop (fun ft0 => tmatch ft0 s) fs p1 []) as [[r q]| |];
      simpl; try reflexivity.
    destruct r; destruct (is_none m); reflexivity.
Qed.

(** C7 at [Record(a=Affix(NUM, " "), b=NUM)] on ["x 2"]: both fields
    fail and the value is the empty mapping. *)
Lemma C7_record_never_fails_witness :
  tmatch (TRecord [(txt "a", TAffix NUM (Fixed (txt " ")) None); (txt "b", NUM)])
    (txt "x 2") 0 = Ret (VDict [], 0) /\
  (exists rec, VDict [] = VDict rec).
Proof.
  split.
  - vm_compute. reflexivity.
  - apply (proj1 C7_record_never_fails
             [(txt "a", TAffix NUM (Fixed (txt " ")) None); (txt "b", NUM)]
             (txt "x 2") 0 (VDict []) 0).
    vm_compute. reflexivity.
Defined.

(** ** Option *)

Lemma option_loop_skip :
  forall mt l1 l2 p,
  Forall (fun kt => mt (snd kt) p = Ret (VNone, p)) l1 ->
  option_loop mt (l1 ++ l2) p = option_loop mt l2 p.
Proof.
  intros mt l1 l2 p H. induction H as [| [v vt] l1 Hx _ IH].
  - reflexivity.
  - simpl in *. rewrite Hx. simpl. exact IH.
Qed.

Lemma fixed_no_match :
  forall d pat s p,
  re_match pat (skipn p s) = Ret None -> tmatch (TFixed d pat) s p = Ret (VNone, p).
Proof.
  intros d pat s p H. simpl. unfold regex_match. rewrite H. reflexivity.
Qed.

Lemma fixed_no_match_all :
  forall (l : list (value * template)) s p,
  Forall (fun kt => exists d' pat', snd kt = TFixed d' pat' /\
                     re_match pat' (skipn p s) = Ret None) l ->
  Forall (fun kt => tmatch (snd kt) s p = Ret (VNone, p)) l.
Proof.
  intros l s p H. eapply Forall_impl; [| exact H].
  intros [v vt] [d' [pat' [Ht Hm]]]. simpl in *. subst vt.
  apply fixed_no_match. exact Hm.
Qed.

(** C8: [Option._match] tries the [Fixed] templates of its values in the
    order of the mapping and returns the first value whose template matches,
    the cursor moved past that match; when none matches it fails with the
    cursor unmoved. [Option({1: "a", 2: "ab"})] reads 1 from ["ab"] and
    consumes one character. *)
Theorem C8_option_first_declared :
  (forall l1 v d pat l2 s p k,
     Forall (fun kt => exists d' pat', snd kt = TFixed d' pat' /\
                         re_match pat' (skipn p s) = Ret None) l1 ->
     re_match pat (skipn p s) = Ret (Some k) ->
     tmatch (TOption (l1 ++ (v, TFixed d pat) :: l2)) s p = Ret (v, p + k)) /\
  (forall l s p,
     Forall (fun kt => exists d' pat', snd kt = TFixed d' pat' /\
                         re_match pat' (skipn p s) = Ret None) l ->
     tmatch (TOption l) s p = Ret (VNone, p)) /\
  build_tmatch one_or_two (txt "ab") 0 = Ret (VInt 1, 1) /\
  build_match one_or_two (txt "ab") 0 = Ret (VInt 1).
Proof.
  refine (conj _ (conj _ (conj _ _))).
  - intros l1 v d pat l2 s p k H1 Hm. simpl.
    rewrite (option_loop_skip _ l1 _ p (fixed_no_match_all l1 s p H1)).
    simpl. unfold regex_match. rewrite Hm. reflexivity.
  - intros l s p H. simpl.
    rewrite <- (app_nil_r l).
    rewrite (option_loop_skip _ l [] p (fixed_no_match_all l s p H)).
    reflexivity.
  - reflexivity.
  - reflexivity.
Qed.

(** C8 at [Option({1: "a", 2: "ab"})] on ["ab"], and at [YES_NO] on
    ["Maybe"]. *)
Lemma C8_option_first_declared_witness :
  tmatch (TOption ([] ++ (VInt 1, Fixed (txt "a")) :: [(VInt 2, Fixed (txt "ab"))]))
    (txt "ab") 0 = Ret (VInt 1, 0 + 1) /\
  tmatch YES_NO (txt "Maybe") 0 = Ret (VNone, 0).
Proof.
  split.
  - apply (proj1 C8_option_first_declared [] (VInt 1) (txt "a") (txt "a")
             [(VInt 2, Fixed (txt "ab"))] (txt "ab") 0 1).
    + constructor.
    + reflexivity.
  - apply (proj1 (proj2 C8_option_first_declared)).
    repeat constructor; eexists; eexists; split; try reflexivity.
Defined.

(** ** Affix with a bare string as content *)

(** C10 (counterexample): [Affix("Q: ", "x").match("A")] raises nothing: the
    prefix does not match, and the content is never used. *)
Lemma C10_match_without_error :
  build_match question_x (txt "A") 0 = Ret VNone.
Proof.
  reflexivity.
Qed.

(** C10 (amended): [Affix] converts a string prefix and suffix to [Fixed]
    (which compiles them: the equation holds for strings that compile) and
    stores a string content as it is. With a [Fixed] prefix, [fill]
    then always raises [AttributeError], and [match] raises it exactly when
    the prefix matches (otherwise it fails); for [Suffix], whose prefix is
    empty, both always raise it. *)
Theorem C10_bare_string_content :
  (forall pre c sfx,
     re_compile pre <> None -> re_compile sfx <> None ->
     Affix (AObj (VStr pre)) (AObj (VStr c)) (AObj (VStr sfx))
     = Ret (TAffix (Fixed pre) (TRaw (VStr c)) (Some (Fixed sfx)))) /\
  (forall prefix d pat c sfx t,
     str_to_fixed prefix = Ret (TFixed d pat) ->
     Affix prefix (AObj (VStr c)) sfx = Ret t ->
     (forall v, fill t v = Exc AttributeError) /\
     (forall s p, tmatch t s p
                  = (x <- regex_match pat s p;;
                     if is_none (fst x) then Ret (VNone, snd x)
                     else Exc AttributeError))) /\
  (forall c sfx t,
     Suffix (AObj (VStr c)) sfx = Ret t ->
     forall v s p, fill t v = Exc AttributeError /\ tmatch t s p = Exc AttributeError).
Proof.
  refine (conj _ (conj _ _)).
  - intros pre c sfx H1 H2. unfold Affix. cbn [str_to_fixed]. unfold Fixed_init.
    destruct (re_compile pre); [|congruence].
    destruct (re_compile sfx); [|congruence]. reflexivity.
  - intros prefix d pat c sfx t Hp Ht. unfold Affix in Ht. rewrite Hp in Ht.
    simpl in Ht.
    destruct (match sfx with
              | AObj VNone => Ret None
              | _ => x <- str_to_fixed sfx;; Ret (Some x)
              end) as [o| |]; simpl in Ht; inversion Ht; subst t; clear Ht.
    split.
    + intros v. reflexivity.
    + intros s p. simpl.
      destruct (regex_match pat s p) as [[m q]| |]; reflexivity.
  - intros c sfx t Ht v s p. unfold Suffix, Affix in Ht. simpl in Ht.
    destruct (match sfx with
              | AObj VNone => Ret None
              | _ => x <- str_to_fixed sfx;; Ret (Some x)
              end) as [o| |]; simpl in Ht; inversion Ht; subst t; clear Ht.
    split; reflexivity.
Qed.

(** C10 at [Affix("Q: ", "x", ".")], [Affix("Q: ", "x")] and
    [Suffix("x", ".")]. *)
Lemma C10_bare_string_content_witness :
  Affix (AObj (VStr (txt "Q: "))) (AObj (VStr (txt "x"))) (AObj (VStr (txt ".")))
  = Ret (TAffix (Fixed (txt "Q: ")) (TRaw (VStr (txt "x"))) (Some (Fixed (txt ".")))) /\
  (fill (TAffix (Fixed (txt "Q: ")) (TRaw (VStr (txt "x"))) None) VNone
   = Exc AttributeError) /\
  (fill (TAffix NOTHING (TRaw (VStr (txt "x"))) (Some (Fixed (txt "."))))
     (VStr (txt "y")) = Exc AttributeError /\
   tmatch (TAffix NOTHING (TRaw (VStr (txt "x"))) (Some (Fixed (txt "."))))
     (txt "x.") 0 = Exc AttributeError).
Proof.
  refine (conj _ (conj _ _)).
  - apply (proj1 C10_bare_string_content); vm_compute; discriminate.
  - apply (proj1 (proj1 (proj2 C10_bare_string_content)
              (AObj (VStr (txt "Q: "))) (txt "Q: ") (txt "Q: ") (txt "x")
              (AObj VNone) _ eq_refl eq_refl)).
  - apply (proj2 (proj2 C10_bare_string_content) (txt "x")
             (AObj (VStr (txt "."))) _ eq_refl).
Defined.

(** ** The cursor *)

Lemma regex_match_advances : forall pat s, advances (regex_match pat s).
Proof.
  intros pat s p v q H. unfold regex_match in H.
  destruct (re_match pat (skipn p s)) as [[k|]| |]; simpl in H;
    inversion H; lia.
Qed.

Lemma integer_match_advances : forall s, advances (integer_match s).
Proof.
  intros s p v q H. unfold integer_match in H.
  destruct (regex_match integer_pattern s p) as [[m p1]| |] eqn:E;
    simpl in H; try discriminate.
  apply regex_match_advances in E.
  destruct m; try (inversion H; lia).
  destruct (py_int s0); inversion H; lia.
Qed.

Lemma append_loop_advances :
  forall mt ts, Forall (fun t => advances (mt t)) ts ->
  forall acc, advances (fun p => append_loop mt ts p acc).
Proof.
  intros mt ts H. induction H as [| t ts Ht _ IH]; intros acc p v q E.
  - simpl in E. inversion E. lia.
  - simpl in E. destruct (mt t p) as [[m p1]| |] eqn:Em; simpl in E;
      try discriminate.
    apply Ht in Em. destruct (is_none m).
    + inversion E. lia.
    + apply IH in E. lia.
Qed.

Lemma record_loop_advances :
  forall mt fs, Forall (fun nf => advances (mt (snd nf))) fs ->
  forall rec, advances (fun p => record_loop mt fs p rec).
Proof.
  intros mt fs H. induction H as [| [name ft] fs Ht _ IH]; intros rec p v q E.
  - simpl in E. inversion E. lia.
  - simpl in E. destruct (mt ft p) as [[m p1]| |] eqn:Em; simpl in E;
      try discriminate.
    apply Ht in Em. apply IH in E. lia.
Qed.

Lemma option_loop_advances :
  forall mt vts, Forall (fun vt => advances (mt (snd vt))) vts ->
  advances (option_loop mt vts).
Proof.
  intros mt vts H. induction H as [| [v vt] vts Ht _ IH]; intros p w q E.
  - simpl in E. inversion E. lia.
  - simpl in E. destruct (mt vt p) as [[m p1]| |] eqn:Em; simpl in E;
      try discriminate.
    apply Ht in Em. destruct (is_none m).
    + apply IH in E. lia.
    + inversion E. lia.
Qed.

Lemma repeat_loop_advances :
  forall mi md, advances mi -> advances md ->
  forall fuel p0 p vals ir dm vals' q ir' dm',
  p0 <= p -> p0 <= ir ->
  repeat_loop mi md fuel p vals ir dm = Ret (vals', q, ir', dm') ->
  p0 <= q /\ p0 <= ir'.
Proof.
  intros mi md Hi Hd fuel. induction fuel as [| fuel IH];
    intros p0 p vals ir dm vals' q ir' dm' H1 H2 E.
  - discriminate.
  - simpl in E. destruct (mi p) as [[m p1]| |] eqn:Em; simpl in E;
      try discriminate.
    apply Hi in Em. destruct (is_none m).
    + inversion E. subst. lia.
    + destruct (md p1) as [[d p2]| |] eqn:Ed; simpl in E; try discriminate.
      apply Hd in Ed. destruct (is_none d).
      * inversion E. subst. lia.
      * destruct (p2 =? p); try discriminate.
        eapply IH; [| | exact E]; lia.
Qed.

Lemma repeat_match_advances :
  forall mi md tr s, advances mi -> advances md ->
  advances (repeat_match mi md tr s).
Proof.
  intros mi md tr s Hi Hd p v q E. unfold repeat_match in E.
  destruct (repeat_loop mi md (S (length s - p)) p [] p VNone)
    as [[[[vals q1] ir] dm]| |] eqn:El; simpl in E; try discriminate.
  apply (repeat_loop_advances mi md Hi Hd _ p) in El; try lia.
  inversion E. destruct (negb (is_none dm) && negb tr); lia.
Qed.

Lemma tmatch_advances : forall t s, advances (tmatch t s).
Proof.
  intros t s. revert t.
  apply (template_ind' (fun t => advances (tmatch t s))).
  - intros o p v q E. discriminate.
  - intros d pat. apply regex_match_advances.
  - intros pat. apply regex_match_advances.
  - apply integer_match_advances.
  - intros ts H. apply (append_loop_advances (fun it => tmatch it s) ts H []).
  - intros it d tr Hi Hd. apply repeat_match_advances; assumption.
  - intros it d tr st Hi Hd p v q E. simpl in E.
    destruct (repeat_match (tmatch it s) (tmatch d s) tr s p) as [[sm q1]| |] eqn:Er;
      simpl in E; try discriminate.
    apply (repeat_match_advances _ _ tr s Hi Hd) in Er.
    destruct sm; try (inversion E; lia).
    destruct (mapM py_index1 l); inversion E; lia.
  - intros pre c sfx Hp Hc Hs p v q E. simpl in E.
    destruct (tmatch pre s p) as [[pm p1]| |] eqn:E1; simpl in E; try discriminate.
    apply Hp in E1. destruct (is_none pm); [inversion E; lia |].
    destruct (tmatch c s p1) as [[cm p2]| |] eqn:E2; simpl in E; try discriminate.
    apply Hc in E2. destruct (is_none cm); [inversion E; lia |].
    destruct sfx as [st|].
    + destruct (tmatch st s p2) as [[sm p3]| |] eqn:E3; simpl in E; try discriminate.
      apply Hs in E3. inversion E. simpl. lia.
    + inversion E. lia.
  - intros fs H. apply (record_loop_advances (fun ft => tmatch ft s) fs H []).
  - intros vts H. apply (option_loop_advances (fun vt => tmatch vt s) vts H).
Qed.




(** ** Round trip: [match(fill(v))] *)

(** C2 (counterexample): [NUM.match(NUM.fill(5))] is [5], not a pair;
    [Repeat(letters, ",", trailing_delimiter=True)] fills [[]] as [","] but
    reads [","] back as [[]] without consuming it; and [Fixed("a").fill(5)]
    is ["a"], which reads back as ["a"], not 5. *)
Lemma C2_match_not_pair_roundtrip :
  fill NUM (VInt 5) = Ret (VStr (txt "5")) /\
  match_ NUM (txt "5") 0 = Ret (VInt 5) /\
  ~ (exists v e, match_ NUM (txt "5") 0 = Ret (VTuple [v; VInt e])) /\
  build_fill (letter_list true) (VList []) = Ret (VStr (txt ",")) /\
  build_tmatch (letter_list true) (txt ",") 0 = Ret (VList [], 0) /\
  fill (Fixed (txt "a")) (VInt 5) = Ret (VStr (txt "a")) /\
  match_ (Fixed (txt "a")) (txt "a") 0 = Ret (VStr (txt "a")).
Proof.
  refine (conj eq_refl (conj eq_refl (conj _ (conj eq_refl (conj eq_refl
            (conj eq_refl eq_refl)))))).
  intros [v [e H]]. vm_compute in H. discriminate H.
Qed.

Lemma skipn_app_len :
  forall (f rest s : str) p, skipn p s = f ++ rest -> skipn (p + length f) s = rest.
Proof.
  intros f rest s p H. rewrite Nat.add_comm, <- skipn_skipn, H.
  rewrite skipn_app, skipn_all, Nat.sub_diag. reflexivity.
Qed.

Lemma firstn_app_len : forall (f rest : str), firstn (length f) (f ++ rest) = f.
Proof.
  intros f rest. rewrite firstn_app, firstn_all, Nat.sub_diag. simpl.
  apply app_nil_r.
Qed.

Lemma regex_match_read :
  forall pat f rest s p,
  re_match pat (f ++ rest) = Ret (Some (length f)) ->
  skipn p s = f ++ rest ->
  regex_match pat s p = Ret (VStr f, p + length f).
Proof.
  intros pat f rest s p Hm Hs. unfold regex_match. rewrite Hs, Hm. simpl.
  rewrite firstn_app_len. reflexivity.
Qed.

Lemma one_char_le :
  forall ok w k, In k (one_char ok w) -> k <= length w.
Proof.
  intros ok [|x w] k H; simpl in H; [contradiction|].
  destruct (ok x); simpl in H; [destruct H as [<-|[]]; simpl; lia | contradiction].
Qed.

Lemma ends_le : forall r w k, In k (ends r w) -> k <= length w.
Proof.
  induction r as [| c | | neg rs | r1 IH1 r2 IH2 | r IH | r IH];
    intros w k H.
  - destruct H as [<-|[]]. lia.
  - exact (one_char_le _ _ _ H).
  - exact (one_char_le _ _ _ H).
  - exact (one_char_le _ _ _ H).
  - simpl in H. apply in_flat_map in H as [x [Hx Hk]].
    apply in_map_iff in Hk as [y [<- Hy]].
    apply IH1 in Hx. apply IH2 in Hy. rewrite length_skipn in Hy. lia.
  - assert (Hstar : forall fuel w k,
      In k ((fix star (fuel : nat) (w : str) {struct fuel} : list nat :=
               match fuel with
               | 0 => [0]
               | S f =>
                   flat_map (fun k => if k =? 0 then []
                                      else map (Nat.add k) (star f (skipn k w)))
                            (ends r w) ++ [0]
               end) fuel w) -> k <= length w).
    { induction fuel as [|fuel IHf]; intros w' k' H'.
      - destruct H' as [<-|[]]. lia.
      - apply in_app_or in H' as [H'|H'].
        + apply in_flat_map in H' as [x [Hx Hk]].
          destruct (x =? 0); [contradiction|].
          apply in_map_iff in Hk as [y [<- Hy]].
          apply IH in Hx. apply IHf in Hy. rewrite length_skipn in Hy. lia.
        + destruct H' as [<-|[]]. lia. }
    exact (Hstar (S (length w)) w k H).
  - simpl in H. apply in_app_or in H as [H|H].
    + exact (IH _ _ H).
    + destruct H as [<-|[]]. lia.
Qed.

Lemma re_match_le :
  forall pat w k, re_match pat w = Ret (Some k) -> k <= length w.
Proof.
  intros pat w k H. unfold re_match in H.
  destruct (re_compile pat) as [r|]; [|discriminate].
  injection H as H. destruct (ends r w) as [|x l] eqn:E; [discriminate|].
  simpl in H. injection H as <-. apply (ends_le r w). rewrite E. left. reflexivity.
Qed.

(** The integer pattern *)

Lemma re_compile_integer :
  re_compile integer_pattern =
  Some (RSeq (ROpt (RChar "-"%char)) (RSeq (RSeq digit_set (RStar digit_set)) REps)).
Proof. reflexivity. Qed.

Lemma ends_set_cons :
  forall neg rs c w,
  ends (RSet neg rs) (c :: w) = if xorb neg (in_ranges c rs) then [1] else [].
Proof. reflexivity. Qed.

Lemma ends_star_none : forall r w, ends r w = [] -> ends (RStar r) w = [0].
Proof. intros r w H. simpl. rewrite H. reflexivity. Qed.

Lemma ends_star_one :
  forall r c w, ends r (c :: w) = [1] ->
  ends (RStar r) (c :: w) = map (Nat.add 1) (ends (RStar r) w) ++ [0].
Proof. intros r c w H. simpl. rewrite H. simpl. rewrite app_nil_r. reflexivity. Qed.

Lemma hd_ends_seq :
  forall r1 r2 w k j,
  hd_error (ends r1 w) = Some k -> hd_error (ends r2 (skipn k w)) = Some j ->
  hd_error (ends (RSeq r1 r2) w) = Some (k + j).
Proof.
  intros r1 r2 w k j H1 H2.
  change (ends (RSeq r1 r2) w)
    with (flat_map (fun k => map (Nat.add k) (ends r2 (skipn k w))) (ends r1 w)).
  destruct (ends r1 w) as [|k' l]; [discriminate|]. injection H1 as ->.
  simpl. destruct (ends r2 (skipn k w)); [discriminate|]. injection H2 as ->.
  reflexivity.
Qed.

Lemma star_digits :
  forall ds rest, Forall (fun c => is_digit c = true) ds ->
  starts_with_digit rest = false ->
  hd_error (ends (RStar digit_set) (ds ++ rest)) = Some (length ds).
Proof.
  induction ds as [|c ds IH]; intros rest Hds Hr.
  - destruct rest as [|c r]; [reflexivity|].
    change (hd_error (ends (RStar digit_set) (c :: r)) = Some 0). rewrite ends_star_none; [reflexivity|].
    unfold digit_set. rewrite ends_set_cons. change (in_ranges c digit_ranges = false) in Hr. rewrite Hr. reflexivity.
  - inversion Hds as [|? ? Hc Hds']; subst. simpl app.
    rewrite ends_star_one.
    + specialize (IH rest Hds' Hr).
      destruct (ends (RStar digit_set) (ds ++ rest)); [discriminate|].
      injection IH as ->. reflexivity.
    + unfold digit_set. rewrite ends_set_cons. unfold is_digit in Hc.
      rewrite Hc. reflexivity.
Qed.

Lemma digits_head :
  forall c ds rest, Forall (fun c => is_digit c = true) (c :: ds) ->
  starts_with_digit rest = false ->
  hd_error (ends (RSeq (RSeq digit_set (RStar digit_set)) REps) (c :: ds ++ rest))
  = Some (length (c :: ds)).
Proof.
  intros c ds rest Hds Hr. inversion Hds as [|? ? Hc Hds']; subst.
  rewrite (hd_ends_seq _ _ _ (1 + length ds) 0).
  - f_equal. simpl. lia.
  - apply (hd_ends_seq _ _ _ 1 (length ds)).
    + unfold digit_set. rewrite ends_set_cons. unfold is_digit in Hc.
      rewrite Hc. reflexivity.
    + exact (star_digits ds rest Hds' Hr).
  - reflexivity.
Qed.

Lemma digit_not_sign :
  forall c, is_digit c = true ->
  Ascii.eqb c "-"%char = false /\ Ascii.eqb c "+"%char = false.
Proof.
  intros c H. split.
  - destruct (Ascii.eqb_spec c "-"%char); [subst; discriminate H | reflexivity].
  - destruct (Ascii.eqb_spec c "+"%char); [subst; discriminate H | reflexivity].
Qed.

Lemma uint_to_str_digits :
  forall u, Forall (fun c => is_digit c = true) (uint_to_str u).
Proof. induction u; simpl; repeat constructor; assumption. Qed.

Lemma str_to_uint_to_str : forall u, str_to_uint (uint_to_str u) = Some u.
Proof. induction u; simpl; try rewrite IHu; reflexivity. Qed.

Lemma to_int_not_nil :
  forall z, match Z.to_int z with
            | Decimal.Pos u | Decimal.Neg u => u <> Decimal.Nil
            end.
Proof.
  intros z. pose proof (DecimalZ.of_to z) as H.
  destruct (Z.to_int z) as [u|u] eqn:E; intros ->; simpl in H; subst z;
    discriminate E.
Qed.

Lemma uint_to_str_nonempty :
  forall u, u <> Decimal.Nil -> exists c w, uint_to_str u = c :: w.
Proof. intros [] H; [congruence| | | | | | | | | |]; eexists; eexists; reflexivity. Qed.

Lemma show_Z_abs_digits :
  forall z, show_Z (Z.abs z) = match Z.to_int z with
                               | Decimal.Pos u | Decimal.Neg u => uint_to_str u
                               end.
Proof. intros [|p|p]; reflexivity. Qed.

Lemma py_int_show_Z : forall z, int_str_ok z = true -> py_int (show_Z z) = Some z.
Proof.
  intros z Hok. pose proof (DecimalZ.of_to z) as Hz. pose proof (to_int_not_nil z) as Hn.
  unfold int_str_ok in Hok. rewrite show_Z_abs_digits in Hok.
  unfold show_Z. destruct (Z.to_int z) as [u|u];
    assert (Hl : (int_max_str_digits <? length (uint_to_str u)) = false)
      by (apply Nat.ltb_ge, Nat.leb_le; exact Hok).
  - destruct (uint_to_str_nonempty u Hn) as [c [w E]].
    pose proof (uint_to_str_digits u) as Hd. rewrite E in Hd.
    inversion Hd as [|? ? Hc _]; subst.
    destruct (digit_not_sign c Hc) as [H1 H2].
    unfold py_int. rewrite E, H1, H2. unfold digits_to_Z.
    rewrite <- E, Hl, str_to_uint_to_str. reflexivity.
  - destruct (uint_to_str_nonempty u Hn) as [c [w E]].
    simpl. unfold digits_to_Z. rewrite E. rewrite <- E, Hl, str_to_uint_to_str.
    rewrite Hz. reflexivity.
Qed.

Lemma integer_re :
  forall z rest, starts_with_digit rest = false ->
  re_match integer_pattern (show_Z z ++ rest) = Ret (Some (length (show_Z z))).
Proof.
  intros z rest Hr. unfold re_match. rewrite re_compile_integer. f_equal.
  pose proof (to_int_not_nil z) as Hn. unfold show_Z in *.
  destruct (Z.to_int z) as [u|u].
  - destruct (uint_to_str_nonempty u Hn) as [c [w E]].
    pose proof (uint_to_str_digits u) as Hd. rewrite E in *.
    inversion Hd as [|? ? Hc _]; subst.
    destruct (digit_not_sign c Hc) as [H1 _].
    apply (hd_ends_seq _ _ _ 0 (length (c :: w))).
    + simpl. rewrite H1. reflexivity.
    + exact (digits_head c w rest Hd Hr).
  - destruct (uint_to_str_nonempty u Hn) as [c [w E]].
    pose proof (uint_to_str_digits u) as Hd. rewrite E in *.
    apply (hd_ends_seq _ _ _ 1 (length (c :: w))).
    + reflexivity.
    + exact (digits_head c w rest Hd Hr).
Qed.

Lemma integer_match_read :
  forall z rest s p, int_str_ok z = true -> starts_with_digit rest = false ->
  skipn p s = show_Z z ++ rest ->
  integer_match s p = Ret (VInt z, p + length (show_Z z)).
Proof.
  intros z rest s p Hok Hr Hs. unfold integer_match.
  rewrite (regex_match_read _ _ _ s p (integer_re z rest Hr) Hs). simpl.
  rewrite (py_int_show_Z z Hok). reflexivity.
Qed.

Lemma str_eqb_refl : forall a, str_eqb a a = true.
Proof.
  induction a as [|x a IH]; simpl; [reflexivity|].
  rewrite Ascii.eqb_refl, IH. reflexivity.
Qed.

Lemma str_eqb_true : forall a b, str_eqb a b = true -> a = b.
Proof.
  induction a as [|x a IH]; intros [|y b]; simpl; try discriminate; [reflexivity|].
  intros H. apply andb_prop in H as [H1 H2]. apply Ascii.eqb_eq in H1. subst.
  f_equal. apply IH, H2.
Qed.

Lemma py_eq_refl : forall v, hashable v = true -> py_eq v v = true.
Proof.
  apply (value_ind' (fun v => hashable v = true -> py_eq v v = true)).
  - intros l Hl H. simpl in *. revert H.
    induction Hl as [|x l Hx _ IHl]; intros H; [reflexivity|].
    simpl in *. apply andb_prop in H as [H1 H2].
    rewrite (Hx H1), (IHl H2). reflexivity.
  - intros [| b | z | w | l | l | l] Hv H.
    + reflexivity.
    + destruct b; reflexivity.
    + apply Z.eqb_refl.
    + apply str_eqb_refl.
    + exfalso. exact (Hv l eq_refl).
    + discriminate H.
    + discriminate H.
Qed.

Lemma is_none_false : forall v, v <> VNone -> is_none v = false.
Proof. intros [] H; try reflexivity. congruence. Qed.

Lemma RT_not_none : forall t v f rest, RT t v f rest -> v <> VNone.
Proof. intros t v f rest H. destruct H; try discriminate; assumption. Qed.

Lemma dict_lookup_cons :
  forall n v d m,
  dict_lookup ((n, v) :: d) m = if str_eqb n m then Some v else dict_lookup d m.
Proof. intros n v d m. unfold dict_lookup. simpl. destruct (str_eqb n m); reflexivity. Qed.

Lemma Forall2_lookup_cons :
  forall n v d ms ws, ~ In n ms ->
  Forall2 (fun m w => dict_lookup d m = Some w) ms ws ->
  Forall2 (fun m w => dict_lookup ((n, v) :: d) m = Some w) ms ws.
Proof.
  intros n v d ms ws Hn H. induction H as [|m w ms ws Hm _ IH]; constructor.
  - rewrite dict_lookup_cons. destruct (str_eqb n m) eqn:E; [|exact Hm].
    apply str_eqb_true in E. subst. exfalso. apply Hn. left. reflexivity.
  - apply IH. intros Hin. apply Hn. right. exact Hin.
Qed.

Lemma lookup_combine_nodup :
  forall names vs, NoDup names -> length names = length vs ->
  Forall2 (fun n v => dict_lookup (combine names vs) n = Some v) names vs.
Proof.
  induction names as [|n names IH]; intros [|v vs] Hnd Hlen; try discriminate;
    [constructor|].
  inversion Hnd as [|? ? Hn Hnd']; subst. simpl in Hlen. injection Hlen as Hlen.
  constructor.
  - simpl. rewrite dict_lookup_cons, str_eqb_refl. reflexivity.
  - simpl. apply Forall2_lookup_cons; [exact Hn|]. apply IH; assumption.
Qed.

Lemma combine_fst_snd :
  forall {A B : Type} (l : list (A * B)), combine (map fst l) (map snd l) = l.
Proof. intros A B l. induction l as [|[a b] l IH]; simpl; [reflexivity|]. rewrite IH. reflexivity. Qed.

Lemma find_after :
  forall (l1 : list (value * template)) v x l2,
  Forall (fun kt => py_eq (fst kt) v = false) l1 -> py_eq (fst x) v = true ->
  find (fun kt => py_eq (fst kt) v) (l1 ++ x :: l2) = Some x.
Proof.
  intros l1 v x l2 H Hx. induction H as [|y l1 Hy _ IH]; simpl.
  - rewrite Hx. reflexivity.
  - rewrite Hy. exact IH.
Qed.

Lemma py_join_strs :
  forall sep parts, py_join sep (map VStr parts) = Ret (str_join sep parts).
Proof.
  intros sep parts. unfold py_join.
  assert (H : mapM (fun v => match v with VStr s => Ret s | _ => Exc TypeError end)
                (map VStr parts) = Ret parts).
  { induction parts as [|x parts IH]; simpl; [reflexivity|]. rewrite IH. reflexivity. }
  rewrite H. reflexivity.
Qed.

Lemma str_join_nil : forall parts, str_join [] parts = concat parts.
Proof.
  induction parts as [|x [|y ps] IH]; [reflexivity| |].
  - simpl. rewrite app_nil_r. reflexivity.
  - change (x ++ [] ++ str_join [] (y :: ps) = x ++ concat (y :: ps)).
    rewrite IH. reflexivity.
Qed.

Lemma length_pos : forall (d : str), d <> [] -> 0 < length d.
Proof. intros [|c d] H; [congruence|]. simpl. lia. Qed.

Lemma RT_reads_back :
  forall t v f rest, RT t v f rest -> reads_back t v f rest.
Proof.
  apply (RT_mut reads_back reads_back_all reads_back_chain).
  - (* Fixed *)
    intros d pat rest Hre. split; [reflexivity|].
    intros s p Hs. exact (regex_match_read pat d rest s p Hre Hs).
  - (* Pattern *)
    intros pat w rest _ Hre. split; [reflexivity|].
    intros s p Hs. exact (regex_match_read pat w rest s p Hre Hs).
  - (* Integer *)
    intros z rest Hok Hr. split.
    + cbn [fill is_none]. unfold py_str. cbn [str_ok]. rewrite Hok. reflexivity.
    + intros s p Hs. exact (integer_match_read z rest s p Hok Hr Hs).
  - (* Append *)
    intros ts vs f rest _ [_ [[parts [Hfill [Hcat _]]] [Hloop _]]]. split.
    + simpl. rewrite Hfill. simpl. rewrite py_join_strs, str_join_nil, Hcat.
      reflexivity.
    + intros s p Hs. simpl. rewrite (Hloop s p [] Hs). reflexivity.
  - (* Record *)
    intros fs vs f rest Hnd _ [Hlen [[parts [_ [Hcat Hrec]]] [_ Hloop]]]. split.
    + specialize (Hrec (map fst fs) (combine (map fst fs) vs)).
      rewrite combine_fst_snd in Hrec.
      simpl. rewrite Hrec.
      * simpl. rewrite py_join_strs, str_join_nil, Hcat. reflexivity.
      * rewrite !length_map. reflexivity.
      * apply lookup_combine_nodup; [exact Hnd|].
        rewrite Hlen, !length_map. reflexivity.
    + intros s p Hs. specialize (Hloop (map fst fs) s p [] ltac:(rewrite !length_map; reflexivity) Hs).
      rewrite combine_fst_snd in Hloop. simpl. exact Hloop.
  - (* Option *)
    intros l1 v d pat l2 rest Hv Hh Hl1 Hre. split.
    + simpl. rewrite (is_none_false v Hv). unfold option_lookup. rewrite Hh.
      rewrite find_after.
      * reflexivity.
      * eapply Forall_impl; [|exact Hl1]. intros kt [H _]. exact H.
      * apply py_eq_refl, Hh.
    + intros s p Hs. simpl.
      rewrite (option_loop_skip _ l1 _ p).
      * simpl. rewrite (regex_match_read pat d rest s p Hre Hs). reflexivity.
      * apply fixed_no_match_all. eapply Forall_impl; [|exact Hl1].
        intros kt [_ H]. rewrite Hs. exact H.
  - (* Repeat *)
    intros it d pat vs f rest _ [Hlen [[parts [Hmap [Hjoin _]]] Hloop]] Hend. split.
    + simpl. rewrite Hmap. simpl. unfold repeat_join. rewrite py_join_strs. simpl.
      rewrite Hjoin. reflexivity.
    + intros s p Hs.
      change (tmatch (TRepeat it (TFixed d pat) false) s p)
        with (repeat_match (tmatch it s) (tmatch (TFixed d pat) s) false s p).
      unfold repeat_match.
      assert (Hls : length s - p = length f + length rest).
      { rewrite <- length_skipn, Hs, length_app. reflexivity. }
      destruct (Hloop s p [] p VNone (S (length s - p)) Hs ltac:(lia))
        as [st [Hst Heq]].
      rewrite Heq. clear Heq.
      pose proof (skipn_app_len f rest s p Hs) as Hr.
      destruct Hend as [Hnone | [k [Hk [Hkpos Hfail]]]].
      * rewrite (fixed_no_match d pat s (p + length f)) by (rewrite Hr; exact Hnone).
        reflexivity.
      * pose proof (re_match_le _ _ _ Hk) as Hkle.
        destruct (S (length s - p) - length vs) as [|fuel] eqn:Ef; [lia|].
        change (tmatch (TFixed d pat) s (p + length f))
          with (regex_match pat s (p + length f)).
        unfold regex_match. rewrite Hr, Hk. simpl.
        replace (p + length f + k =? st) with false
          by (symmetry; apply Nat.eqb_neq; lia).
        destruct (Hfail s (p + length f + k)) as [q Hq].
        { rewrite <- Nat.add_comm, <- skipn_skipn, Hr. reflexivity. }
        simpl. rewrite Hq. reflexivity.
  - (* Repeat, empty *)
    intros it d pat rest Hfail. split; [reflexivity|].
    intros s p Hs.
    change (tmatch (TRepeat it (TFixed d pat) false) s p)
      with (repeat_match (tmatch it s) (tmatch (TFixed d pat) s) false s p).
    unfold repeat_match. simpl. rewrite (Hfail s p Hs). simpl.
    rewrite Nat.add_0_r. reflexivity.
  - (* Repeat, trailing *)
    intros it d pat vs f rest Hd _ [Hlen [[parts [Hmap [Hjoin _]]] Hloop]] Hre Hfail.
    split.
    + simpl. rewrite Hmap. simpl. unfold repeat_join. rewrite py_join_strs. simpl.
      rewrite Hjoin. reflexivity.
    + intros s p Hs. rewrite <- app_assoc in Hs.
      change (tmatch (TRepeat it (TFixed d pat) true) s p)
        with (repeat_match (tmatch it s) (tmatch (TFixed d pat) s) true s p).
      unfold repeat_match.
      assert (Hls : length s - p = length f + length d + length rest).
      { rewrite <- length_skipn, Hs, !length_app. lia. }
      pose proof (length_pos d Hd) as Hdpos.
      destruct (Hloop s p [] p VNone (S (length s - p)) Hs ltac:(lia))
        as [st [Hst Heq]].
      rewrite Heq. clear Heq.
      pose proof (skipn_app_len f (d ++ rest) s p Hs) as Hr.
      destruct (S (length s - p) - length vs) as [|fuel] eqn:Ef; [lia|].
      change (tmatch (TFixed d pat) s (p + length f))
        with (regex_match pat s (p + length f)).
      rewrite (regex_match_read pat d rest s (p + length f) Hre Hr). simpl.
      replace (p + length f + length d =? st) with false
        by (symmetry; apply Nat.eqb_neq; lia).
      rewrite (Hfail s (p + length f + length d) (skipn_app_len d rest s _ Hr)).
      simpl. rewrite length_app, Nat.add_assoc. reflexivity.
  - (* no items *)
    intros rest. refine (conj eq_refl (conj _ (conj _ _))).
    + exists []. refine (conj eq_refl (conj eq_refl _)).
      intros names recd Hn _. destruct names; [reflexivity | discriminate].
    + intros s p acc _. simpl. rewrite app_nil_r, Nat.add_0_r. reflexivity.
    + intros names s p rec Hn _. destruct names; [|discriminate].
      simpl. rewrite app_nil_r, Nat.add_0_r. reflexivity.
  - (* one more item *)
    intros t ts v vs f fs rest Hrt [Hfill Hmatch] _
      [Hlen [[parts [Hfills [Hcat Hrec]]] [Hloop Hrloop]]].
    pose proof (RT_not_none _ _ _ _ Hrt) as Hv.
    refine (conj _ (conj _ (conj _ _))).
    + simpl. rewrite Hlen. reflexivity.
    + exists (f :: parts). refine (conj _ (conj _ _)).
      * simpl. rewrite Hfill. simpl. rewrite Hfills. reflexivity.
      * simpl. rewrite Hcat. reflexivity.
      * intros [|n names] recd Hn Hl; [discriminate|].
        inversion Hl as [|? ? ? ? Hnv Hl']; subst.
        simpl in Hn. injection Hn as Hn.
        simpl. unfold py_contains, py_get. rewrite Hnv. simpl.
        rewrite Hfill. simpl. rewrite (Hrec names recd Hn Hl'). reflexivity.
    + intros s p acc Hs. rewrite <- app_assoc in Hs. simpl.
      rewrite (Hmatch s p Hs). simpl. rewrite (is_none_false v Hv).
      rewrite (Hloop s (p + length f) (acc ++ [v]) (skipn_app_len _ _ s p Hs)).
      rewrite <- app_assoc, length_app, Nat.add_assoc. reflexivity.
    + intros [|n names] s p rec Hn Hs; [discriminate|].
      simpl in Hn. injection Hn as Hn. rewrite <- app_assoc in Hs. simpl.
      rewrite (Hmatch s p Hs). simpl. rewrite (is_none_false v Hv).
      rewrite (Hrloop names s (p + length f) (rec ++ [(n, v)]) Hn
                 (skipn_app_len _ _ s p Hs)).
      rewrite <- app_assoc, length_app, Nat.add_assoc. reflexivity.
  - (* Chain, one *)
    intros it d pat v f rest Hrt [Hfill Hmatch]. refine (conj _ (conj _ _)).
    + simpl. lia.
    + exists [f]. refine (conj _ (conj eq_refl _)); [|discriminate].
      simpl. rewrite Hfill. reflexivity.
    + intros s p vals ir dm fuel Hs Hfuel.
      destruct fuel as [|fuel]; [simpl in Hfuel; lia|].
      exists p. split; [lia|].
      cbn [repeat_loop]. rewrite (Hmatch s p Hs). cbn [bind].
      rewrite (is_none_false v (RT_not_none _ _ _ _ Hrt)).
      change (S fuel - length [v]) with (fuel - 0). rewrite Nat.sub_0_r.
      reflexivity.
  - (* Chain, cons *)
    intros it d pat v vs f fs rest Hd Hrt [Hfill Hmatch] Hre _
      [Hlen [[parts [Hmap [Hjoin Hne]]] Hloop]].
    pose proof (length_pos d Hd) as Hdpos.
    pose proof (RT_not_none _ _ _ _ Hrt) as Hv.
    refine (conj _ (conj _ _)).
    + simpl. rewrite !length_app. lia.
    + exists (f :: parts). refine (conj _ (conj _ _)); [| |discriminate].
      * simpl. rewrite Hfill. simpl. rewrite Hmap. reflexivity.
      * destruct parts as [|y ps]; [congruence|].
        change (str_join d (f :: y :: ps)) with (f ++ d ++ str_join d (y :: ps)).
        rewrite Hjoin. reflexivity.
    + intros s p vals ir dm fuel Hs Hfuel.
      destruct fuel as [|fuel]; [simpl in Hfuel; lia|].
      rewrite <- !app_assoc in Hs.
      pose proof (skipn_app_len f (d ++ fs ++ rest) s p Hs) as Hr1.
      pose proof (skipn_app_len d (fs ++ rest) s (p + length f) Hr1) as Hr2.
      destruct (Hloop s (p + length f + length d) (vals ++ [v]) (p + length f)
                  (VStr d) fuel Hr2 ltac:(simpl in Hfuel; lia)) as [st [Hst Heq]].
      exists st. split; [rewrite !length_app; lia|].
      cbn [repeat_loop]. rewrite (Hmatch s p Hs). cbn [bind].
      rewrite (is_none_false v Hv).
      change (tmatch (TFixed d pat) s (p + length f))
        with (regex_match pat s (p + length f)).
      rewrite (regex_match_read pat d (fs ++ rest) s (p + length f) Hre Hr1).
      cbn [bind is_none negb].
      replace (p + length f + length d =? p) with false
        by (symmetry; apply Nat.eqb_neq; lia).
      rewrite Heq.
      replace (p + length (f ++ d ++ fs)) with (p + length f + length d + length fs)
        by (rewrite !length_app; lia).
      rewrite <- app_assoc.
      change (S fuel - length (v :: vs)) with (fuel - length vs).
      reflexivity.
Qed.

(** C2 (amended): when [RT t v f []] holds (the rendering [f] of [v] is
    unambiguous: [t] is a [Fixed] and [v] its default text, a [Pattern]
    with no group, an [Integer] of at most [int_max_str_digits] digits, an
    [Option] with a [Fixed] per value, or an [Append], a
    [Record] with every field present or a [Repeat] of such templates, each
    part being exactly what its template accepts first, and a [Repeat]
    stopping after its last item), [t.fill(v)] is [f], [t.match(f)] returns
    [v] itself, and [_match] ends at [len(f)]. *)
Theorem C2_roundtrip_value :
  forall t v f, RT t v f [] ->
  fill t v = Ret (VStr f) /\ match_ t f 0 = Ret v /\ tmatch t f 0 = Ret (v, length f).
Proof.
  intros t v f H. destruct (RT_reads_back t v f [] H) as [Hfill Hmatch].
  assert (Hm : tmatch t f 0 = Ret (v, length f)).
  { apply (Hmatch f 0). rewrite app_nil_r. reflexivity. }
  refine (conj Hfill (conj _ Hm)).
  unfold match_. rewrite Hm. reflexivity.
Qed.

(** C2 at [Repeat(Append(NUM, SPACE, YES_NO), ",")] on the rows
    [(12, " ", True)] and [(-3, " ", False)], rendered ["12 Yes,-3 No"]. *)
Lemma C2_roundtrip_value_witness :
  RT yes_no_rows yes_no_rows_value (txt "12 Yes,-3 No") [] /\
  fill yes_no_rows yes_no_rows_value = Ret (VStr (txt "12 Yes,-3 No")) /\
  match_ yes_no_rows (txt "12 Yes,-3 No") 0 = Ret yes_no_rows_value /\
  tmatch yes_no_rows (txt "12 Yes,-3 No") 0
  = Ret (yes_no_rows_value, length (txt "12 Yes,-3 No")).
Proof.
  assert (H : RT yes_no_rows yes_no_rows_value (txt "12 Yes,-3 No") []).
  { unfold yes_no_rows, yes_no_rows_value.
    apply (RT_repeat _ (txt ",") (txt ",") _ (txt "12 Yes,-3 No") []).
    - apply (Chain_cons _ (txt ",") (txt ",") _ [_] (txt "12 Yes") (txt "-3 No") []).
      + discriminate.
      + apply RT_append.
        apply (RTs_cons _ _ _ _ (txt "12") (txt " Yes")).
        * apply (RT_integer 12); reflexivity.
        * apply (RTs_cons _ _ _ _ (txt " ") (txt "Yes")).
          -- apply RT_fixed. reflexivity.
          -- apply (RTs_cons _ _ _ _ (txt "Yes") []).
             ++ apply (RT_option [(VBool false, Fixed (txt "No"))] (VBool true)
                         (txt "Yes") (txt "Yes") []).
                ** discriminate.
                ** reflexivity.
                ** constructor; [|constructor].
                   split; [reflexivity|]. exists (txt "No"), (txt "No").
                   split; reflexivity.
                ** reflexivity.
             ++ constructor.
      + reflexivity.
      + apply Chain_one. apply RT_append.
        apply (RTs_cons _ _ _ _ (txt "-3") (txt " No")).
        * apply (RT_integer (-3)); reflexivity.
        * apply (RTs_cons _ _ _ _ (txt " ") (txt "No")).
          -- apply RT_fixed. reflexivity.
          -- apply (RTs_cons _ _ _ _ (txt "No") []).
             ++ apply (RT_option [] (VBool false) (txt "No") (txt "No")
                         [(VBool true, Fixed (txt "Yes"))]).
                ** discriminate.
                ** reflexivity.
                ** constructor.
                ** reflexivity.
             ++ constructor.
    - left. reflexivity. }
  exact (conj H (C2_roundtrip_value _ _ _ H)).
Defined.

(** * Further properties *)

(** ** Cursor bounds and divergence of Repeat *)

Lemma regex_match_within : forall pat s, within (length s) (regex_match pat s).
Proof.
  intros pat s p v q H. unfold regex_match in H.
  destruct (re_match pat (skipn p s)) as [[k|]| |] eqn:E; simpl in H;
    inversion H; subst; [|lia].
  apply re_match_le in E. rewrite length_skipn in E. lia.
Qed.

Lemma integer_match_within : forall s, within (length s) (integer_match s).
Proof.
  intros s p v q H. unfold integer_match in H.
  destruct (regex_match integer_pattern s p) as [[m p1]| |] eqn:E;
    simpl in H; try discriminate.
  apply regex_match_within in E.
  destruct m; try (inversion H; lia).
  destruct (py_int s0); inversion H; lia.
Qed.

Lemma append_loop_within :
  forall n mt ts, Forall (fun t => within n (mt t)) ts ->
  forall acc, within n (fun p => append_loop mt ts p acc).
Proof.
  intros n mt ts H. induction H as [| t ts Ht _ IH]; intros acc p v q E.
  - simpl in E. inversion E. lia.
  - simpl in E. destruct (mt t p) as [[m p1]| |] eqn:Em; simpl in E;
      try discriminate.
    apply Ht in Em. destruct (is_none m).
    + inversion E. lia.
    + apply IH in E. lia.
Qed.

Lemma record_loop_within :
  forall n mt fs, Forall (fun nf => within n (mt (snd nf))) fs ->
  forall rec, within n (fun p => record_loop mt fs p rec).
Proof.
  intros n mt fs H. induction H as [| [name ft] fs Ht _ IH]; intros rec p v q E.
  - simpl in E. inversion E. lia.
  - simpl in E. destruct (mt ft p) as [[m p1]| |] eqn:Em; simpl in E;
      try discriminate.
    apply Ht in Em. apply IH in E. lia.
Qed.

Lemma option_loop_within :
  forall n mt vts, Forall (fun vt => within n (mt (snd vt))) vts ->
  within n (option_loop mt vts).
Proof.
  intros n mt vts H. induction H as [| [v vt] vts Ht _ IH]; intros p w q E.
  - simpl in E. inversion E. lia.
  - simpl in E. destruct (mt vt p) as [[m p1]| |] eqn:Em; simpl in E;
      try discriminate.
    apply Ht in Em. destruct (is_none m).
    + apply IH in E. lia.
    + inversion E. lia.
Qed.

Lemma repeat_loop_within :
  forall n mi md, within n mi -> within n md ->
  forall fuel p vals ir dm vals' q ir' dm' b,
  p <= Nat.max b n -> ir <= Nat.max b n ->
  repeat_loop mi md fuel p vals ir dm = Ret (vals', q, ir', dm') ->
  q <= Nat.max b n /\ ir' <= Nat.max b n.
Proof.
  intros n mi md Hi Hd fuel. induction fuel as [| fuel IH];
    intros p vals ir dm vals' q ir' dm' b H1 H2 E.
  - discriminate.
  - simpl in E. destruct (mi p) as [[m p1]| |] eqn:Em; simpl in E;
      try discriminate.
    apply Hi in Em. destruct (is_none m).
    + inversion E. subst. lia.
    + destruct (md p1) as [[d p2]| |] eqn:Ed; simpl in E; try discriminate.
      apply Hd in Ed. destruct (is_none d).
      * inversion E. subst. lia.
      * destruct (p2 =? p); try discriminate.
        eapply IH; [| | exact E]; lia.
Qed.

Lemma repeat_match_within :
  forall mi md tr s, within (length s) mi -> within (length s) md ->
  within (length s) (repeat_match mi md tr s).
Proof.
  intros mi md tr s Hi Hd p v q E. unfold repeat_match in E.
  destruct (repeat_loop mi md (S (length s - p)) p [] p VNone)
    as [[[[vals q1] ir] dm]| |] eqn:El; simpl in E; try discriminate.
  apply (repeat_loop_within _ mi md Hi Hd _ _ _ _ _ _ _ _ _ p) in El; try lia.
  inversion E. destruct (negb (is_none dm) && negb tr); lia.
Qed.

Lemma tmatch_within : forall t s, within (length s) (tmatch t s).
Proof.
  intros t s. revert t.
  apply (template_ind' (fun t => within (length s) (tmatch t s))).
  - intros o p v q E. discriminate.
  - intros d pat. apply regex_match_within.
  - intros pat. apply regex_match_within.
  - apply integer_match_within.
  - intros ts H. apply (append_loop_within _ (fun it => tmatch it s) ts H []).
  - intros it d tr Hi Hd. apply repeat_match_within; assumption.
  - intros it d tr st Hi Hd p v q E. simpl in E.
    destruct (repeat_match (tmatch it s) (tmatch d s) tr s p) as [[sm q1]| |] eqn:Er;
      simpl in E; try discriminate.
    apply (repeat_match_within _ _ tr s Hi Hd) in Er.
    destruct sm; try (inversion E; lia).
    destruct (mapM py_index1 l); inversion E; lia.
  - intros pre c sfx Hp Hc Hs p v q E. simpl in E.
    destruct (tmatch pre s p) as [[pm p1]| |] eqn:E1; simpl in E; try discriminate.
    apply Hp in E1. destruct (is_none pm); [inversion E; lia |].
    destruct (tmatch c s p1) as [[cm p2]| |] eqn:E2; simpl in E; try discriminate.
    apply Hc in E2. destruct (is_none cm); [inversion E; lia |].
    destruct sfx as [st|].
    + destruct (tmatch st s p2) as [[sm p3]| |] eqn:E3; simpl in E; try discriminate.
      apply Hs in E3. inversion E. simpl. lia.
    + inversion E. lia.
  - intros fs H. apply (record_loop_within _ (fun ft => tmatch ft s) fs H []).
  - intros vts H. apply (option_loop_within _ (fun vt => tmatch vt s) vts H).
Qed.

(** X1: a match that starts inside the text ends inside it: the cursor
    moves forward and stops at the end of the text at the latest. *)
Theorem tmatch_cursor_in_text :
  forall t s p v q, p <= length s -> tmatch t s p = Ret (v, q) ->
  p <= q <= length s.
Proof.
  intros t s p v q Hp E. split.
  - exact (tmatch_advances t s p v q E).
  - apply tmatch_within in E. lia.
Qed.

Lemma tmatch_cursor_in_text_witness :
  2 <= length (txt "12 Yes,-3 No") /\
  tmatch yes_no_rows (txt "12 Yes,-3 No") 2 = Ret (VList [], 2) /\
  2 <= 2 <= length (txt "12 Yes,-3 No").
Proof.
  assert (H : tmatch yes_no_rows (txt "12 Yes,-3 No") 2 = Ret (VList [], 2))
    by (vm_compute; reflexivity).
  refine (conj _ (conj H (tmatch_cursor_in_text _ _ _ _ _ _ H))); simpl; lia.
Defined.


Lemma repeat_loop_diverges_only :
  forall n mi md, advances mi -> advances md -> within n mi -> within n md ->
  (forall q, mi q <> Loop) -> (forall q, md q <> Loop) ->
  forall fuel p vals ir dm b,
  p <= Nat.max b n -> Nat.max b n - p < fuel ->
  repeat_loop mi md fuel p vals ir dm = Loop ->
  exists q m dm', p <= q /\ mi q = Ret (m, q) /\ m <> VNone /\
                  md q = Ret (dm', q) /\ dm' <> VNone.
Proof.
  intros n mi md Ai Ad Wi Wd Li Ld fuel.
  induction fuel as [|fuel IH]; intros p vals ir dm b Hp Hf E; [lia|].
  simpl in E. destruct (mi p) as [[m p1]| |] eqn:Em; simpl in E;
    [| discriminate | exfalso; exact (Li p Em)].
  pose proof (Ai _ _ _ Em) as A1. pose proof (Wi _ _ _ Em) as W1.
  destruct (is_none m) eqn:Nm; [discriminate|].
  destruct (md p1) as [[d' p2]| |] eqn:Ed; simpl in E;
    [| discriminate | exfalso; exact (Ld p1 Ed)].
  pose proof (Ad _ _ _ Ed) as A2. pose proof (Wd _ _ _ Ed) as W2.
  destruct (is_none d') eqn:Nd; [discriminate|].
  destruct (p2 =? p) eqn:Ep.
  - apply Nat.eqb_eq in Ep. subst p2.
    assert (p1 = p) by lia. subst p1.
    exists p, m, d'. repeat split; try lia; try assumption.
    + intros ->. discriminate Nm.
    + intros ->. discriminate Nd.
  - apply Nat.eqb_neq in Ep.
    destruct (IH p2 _ _ _ b ltac:(lia) ltac:(lia) E) as [q [m' [dm' [Hq R]]]].
    exists q, m', dm'. split; [lia | exact R].
Qed.

(** X3: when its item and delimiter always return, [Repeat._match] runs for
    ever only on such an iteration: at some position from the start, the
    item and the delimiter both match the empty text. *)
Theorem repeat_match_diverges_only :
  forall it d tr s p,
  (forall q, tmatch it s q <> Loop) -> (forall q, tmatch d s q <> Loop) ->
  tmatch (TRepeat it d tr) s p = Loop ->
  exists q m dm, p <= q /\ tmatch it s q = Ret (m, q) /\ m <> VNone /\
                 tmatch d s q = Ret (dm, q) /\ dm <> VNone.
Proof.
  intros it d tr s p Li Ld E.
  change (tmatch (TRepeat it d tr) s p)
    with (repeat_match (tmatch it s) (tmatch d s) tr s p) in E.
  unfold repeat_match in E.
  destruct (repeat_loop (tmatch it s) (tmatch d s) (S (length s - p)) p [] p VNone)
    as [x| |] eqn:El; [destruct x as [[[? ?] ?] ?]; discriminate | discriminate |].
  exact (repeat_loop_diverges_only (length s) _ _ (tmatch_advances it s)
    (tmatch_advances d s) (tmatch_within it s) (tmatch_within d s) Li Ld
    (S (length s - p)) p [] p VNone p ltac:(lia) ltac:(lia) El).
Qed.

Lemma regex_match_no_loop : forall pat s q, regex_match pat s q <> Loop.
Proof.
  intros pat s q. unfold regex_match, re_match.
  destruct (re_compile pat); cbn; [destruct (hd_error _)|]; intro E; discriminate E.
Qed.


Lemma repeat_match_diverges_only_witness :
  (forall q, tmatch a_star (txt "aab") q <> Loop) /\
  (forall q, tmatch NOTHING (txt "aab") q <> Loop) /\
  tmatch (TRepeat a_star NOTHING true) (txt "aab") 0 = Loop /\
  exists q m dm, 0 <= q /\ tmatch a_star (txt "aab") q = Ret (m, q) /\ m <> VNone /\
                 tmatch NOTHING (txt "aab") q = Ret (dm, q) /\ dm <> VNone.
Proof.
  assert (H1 : forall q, tmatch a_star (txt "aab") q <> Loop)
    by (intro q; exact (regex_match_no_loop _ _ _)).
  assert (H2 : forall q, tmatch NOTHING (txt "aab") q <> Loop)
    by (intro q; exact (regex_match_no_loop _ _ _)).
  assert (H3 : tmatch (TRepeat a_star NOTHING true) (txt "aab") 0 = Loop)
    by (vm_compute; reflexivity).
  exact (conj H1 (conj H2 (conj H3 (repeat_match_diverges_only _ _ _ _ _ H1 H2 H3)))).
Defined.

(** ** Append._match *)
Lemma append_loop_arity :
  forall mt ts p acc v q,
  Forall (fun m => m <> VNone) acc ->
  append_loop mt ts p acc = Ret (v, q) ->
  v = VNone \/ exists ms, v = VTuple ms /\ length ms = length acc + length ts /\
                          Forall (fun m => m <> VNone) ms.
Proof.
  intros mt ts. induction ts as [|t ts IH]; intros p acc v q Ha E.
  - simpl in E. inversion E. right. exists acc. split; [reflexivity|].
    split; [simpl; lia | exact Ha].
  - simpl in E. destruct (mt t p) as [[m p1]| |]; simpl in E; try discriminate.
    destruct (is_none m) eqn:Nm.
    + inversion E. left. reflexivity.
    + apply IH in E.
      * destruct E as [E|[ms [E1 [E2 E3]]]]; [left; exact E|].
        right. exists ms. rewrite length_app in E2. simpl in *.
        split; [exact E1|split; [lia|exact E3]].
      * apply Forall_app. split; [exact Ha|].
        constructor; [|constructor]. intros ->. discriminate Nm.
Qed.

(** X4: [Append._match] fails with [None], or returns a tuple with one
    component per item template, none of them [None]. *)
Theorem append_match_arity :
  forall ts s p v q, tmatch (TAppend ts) s p = Ret (v, q) ->
  v = VNone \/ exists ms, v = VTuple ms /\ length ms = length ts /\
                          Forall (fun m => m <> VNone) ms.
Proof.
  intros ts s p v q E. simpl in E.
  apply (append_loop_arity _ ts p [] v q (Forall_nil _)) in E. exact E.
Qed.

Lemma append_match_arity_witness :
  tmatch (TAppend [NUM; NUM]) (txt "12-3") 0 = Ret (VTuple [VInt 12; VInt (-3)], 4) /\
  (VTuple [VInt 12; VInt (-3)] = VNone \/
   exists ms, VTuple [VInt 12; VInt (-3)] = VTuple ms /\ length ms = 2 /\
              Forall (fun m => m <> VNone) ms).
Proof.
  assert (H : tmatch (TAppend [NUM; NUM]) (txt "12-3") 0
              = Ret (VTuple [VInt 12; VInt (-3)], 4)) by (vm_compute; reflexivity).
  exact (conj H (append_match_arity _ _ _ _ _ H)).
Defined.

(** ** Record.fill *)
Lemma record_fill_loop_lookup :
  forall fs l1 l2,
  (forall name, In name (map fst fs) -> dict_lookup l1 name = dict_lookup l2 name) ->
  record_fill_loop fill (VDict l1) fs = record_fill_loop fill (VDict l2) fs.
Proof.
  induction fs as [|[name ft] fs IH]; intros l1 l2 H; [reflexivity|].
  simpl. rewrite (H name (or_introl eq_refl)).
  rewrite (IH l1 l2 (fun n Hn => H n (or_intror Hn))). reflexivity.
Qed.

Lemma record_fill_loop_empty :
  forall fs, record_fill_loop fill (VDict []) fs = Ret [].
Proof.
  induction fs as [|[name ft] fs IH]; [reflexivity|]. simpl. exact IH.
Qed.

(** X5: [Record.fill] of a mapping depends only on what the field names
    look up in it: the order of its keys and its other keys do not matter.
    A mapping with none of the fields fills to the empty string. *)
Theorem record_fill_by_lookup :
  (forall fs l1 l2,
   (forall name, In name (map fst fs) -> dict_lookup l1 name = dict_lookup l2 name) ->
   fill (TRecord fs) (VDict l1) = fill (TRecord fs) (VDict l2)) /\
  (forall fs, fill (TRecord fs) (VDict []) = Ret (VStr [])).
Proof.
  split.
  - intros fs l1 l2 H. simpl. rewrite (record_fill_loop_lookup fs l1 l2 H).
    reflexivity.
  - intros fs. simpl. rewrite record_fill_loop_empty. reflexivity.
Qed.

Lemma record_fill_by_lookup_witness :
  fill num_pair (VDict [(txt "b", VInt 2); (txt "c", VInt 5); (txt "a", VInt 1)])
  = fill num_pair (VDict [(txt "a", VInt 1); (txt "b", VInt 2)]).
Proof.
  apply (proj1 record_fill_by_lookup).
  intros name [<-|[<-|[]]]; reflexivity.
Defined.

(** ** Option.fill *)
Lemma py_eq_one_true : forall k, py_eq k (VInt 1) = py_eq k (VBool true).
Proof. intros [| [|] | z | | | |]; reflexivity. Qed.

Lemma py_eq_zero_false : forall k, py_eq k (VInt 0) = py_eq k (VBool false).
Proof. intros [| [|] | z | | | |]; reflexivity. Qed.

Lemma option_lookup_ext :
  forall vts a b, hashable a = hashable b ->
  (forall k, py_eq k a = py_eq k b) -> option_lookup vts a = option_lookup vts b.
Proof.
  intros vts a b Hh Hk. unfold option_lookup. rewrite Hh.
  replace (find (fun kt => py_eq (fst kt) a) vts)
    with (find (fun kt => py_eq (fst kt) b) vts); [reflexivity|].
  induction vts as [|kt vts IH]; [reflexivity|]. simpl.
  rewrite Hk. destruct (py_eq (fst kt) b); [reflexivity|exact IH].
Qed.

(** X6: as Python's [True == 1] and [False == 0] with equal hashes,
    [Option.fill] renders [1] as [True] and [0] as [False]. *)
Theorem option_fill_bool_int :
  forall vts, fill (TOption vts) (VInt 1) = fill (TOption vts) (VBool true) /\
              fill (TOption vts) (VInt 0) = fill (TOption vts) (VBool false).
Proof.
  intros vts. split; simpl.
  - rewrite (option_lookup_ext vts (VInt 1) (VBool true) eq_refl py_eq_one_true).
    reflexivity.
  - rewrite (option_lookup_ext vts (VInt 0) (VBool false) eq_refl py_eq_zero_false).
    reflexivity.
Qed.

Lemma find_none_forall :
  forall {A} (f : A -> bool) l, Forall (fun x => f x = false) l -> find f l = None.
Proof.
  intros A f l H. induction H as [|x l Hx _ IH]; [reflexivity|]. simpl.
  rewrite Hx. exact IH.
Qed.

(** X7: [Option.fill] of a hashable value other than [None] renders the
    [Fixed] text of the first key equal to it, and raises [KeyError] when
    no key is equal to it; a list or a mapping raises [TypeError]. *)
Theorem option_fill_lookup :
  (forall l1 k d pat l2 v,
     v <> VNone -> hashable v = true ->
     Forall (fun kt => py_eq (fst kt) v = false) l1 -> py_eq k v = true ->
     fill (TOption (l1 ++ (k, TFixed d pat) :: l2)) v = Ret (VStr d)) /\
  (forall vts v,
     v <> VNone -> hashable v = true ->
     Forall (fun kt => py_eq (fst kt) v = false) vts ->
     fill (TOption vts) v = Exc KeyError) /\
  (forall vts l d, fill (TOption vts) (VList l) = Exc TypeError /\
                   fill (TOption vts) (VDict d) = Exc TypeError).
Proof.
  refine (conj _ (conj _ _)).
  - intros l1 k d pat l2 v Hv Hh H1 Hk. simpl. rewrite (is_none_false v Hv).
    unfold option_lookup. rewrite Hh.
    rewrite (find_after l1 v (k, TFixed d pat) l2 H1 Hk).
    reflexivity.
  - intros vts v Hv Hh H. simpl. rewrite (is_none_false v Hv).
    unfold option_lookup. rewrite Hh.
    rewrite (find_none_forall (fun kt => py_eq (fst kt) v) vts H). reflexivity.
  - intros vts l d. split; reflexivity.
Qed.

Lemma option_fill_lookup_witness :
  fill (TOption ([] ++ (VBool true, Fixed (txt "Yes")) :: [(VBool false, Fixed (txt "No"))]))
    (VInt 1) = Ret (VStr (txt "Yes")) /\
  fill YES_NO (VInt 2) = Exc KeyError.
Proof.
  split.
  - apply (proj1 option_fill_lookup); [discriminate | reflexivity | constructor | reflexivity].
  - apply (proj1 (proj2 option_fill_lookup)); [discriminate | reflexivity |].
    repeat constructor.
Defined.

(** ** Constructors *)
Lemma str_to_fixed_object :
  forall o, (forall s, o <> VStr s) -> str_to_fixed (AObj o) = Exc ValueError.
Proof.
  intros [| | | s | | |] H; try reflexivity. exfalso. exact (H s eq_refl).
Qed.

Lemma mapM_first_error :
  forall {A B} (f : A -> result B) l1 x l2 e,
  Forall (fun a => exists b, f a = Ret b) l1 ->
  f x = Exc e -> mapM f (l1 ++ x :: l2) = Exc e.
Proof.
  intros A B f l1 x l2 e H1 Hx. induction H1 as [|a l1 [b Hb] _ IH].
  - cbn [app mapM]. rewrite Hx. reflexivity.
  - cbn [app mapM]. rewrite Hb. cbn [bind]. rewrite IH. reflexivity.
Qed.

Lemma pair_converts :
  forall {K} (l : list (K * arg)),
  Forall (fun kt => exists t, str_to_fixed (snd kt) = Ret t) l ->
  Forall (fun kt => exists b, (t <- str_to_fixed (snd kt);; Ret (fst kt, t)) = Ret b) l.
Proof.
  intros K l H. eapply Forall_impl; [|exact H].
  intros [k a] [t Ht]. cbn [snd fst] in *. rewrite Ht. eexists. reflexivity.
Qed.

(** X8: where the constructors convert an argument with [str_to_fixed], an
    object that is neither a string nor a template raises [ValueError] when
    the arguments converted before it convert: any item of [Append], the
    delimiter of [Repeat], the label, item and delimiter of [NumberedList],
    the prefix of [Affix], a suffix other than [None], and any template of
    [Record] or [Option]. *)
Theorem constructors_reject_objects :
  forall o, (forall s, o <> VStr s) ->
  (forall l1 l2, Forall (fun a => exists t, str_to_fixed a = Ret t) l1 ->
     Append (l1 ++ AObj o :: l2) = Exc ValueError) /\
  (forall it tr, Repeat it (AObj o) tr = Exc ValueError) /\
  (forall lab it d tr st,
     NumberedList (AObj o) it d tr st = Exc ValueError /\
     ((exists t, str_to_fixed lab = Ret t) ->
      NumberedList lab (AObj o) d tr st = Exc ValueError) /\
     ((exists t, Append [lab; it] = Ret t) ->
      NumberedList lab it (AObj o) tr st = Exc ValueError)) /\
  (forall c sfx, Affix (AObj o) c sfx = Exc ValueError) /\
  (o <> VNone ->
     (forall pre c, (exists t, str_to_fixed pre = Ret t) ->
        Affix pre c (AObj o) = Exc ValueError) /\
     (forall c, Suffix c (AObj o) = Exc ValueError)) /\
  (forall l1 n l2, Forall (fun nf => exists t, str_to_fixed (snd nf) = Ret t) l1 ->
     Record (l1 ++ (n, AObj o) :: l2) = Exc ValueError) /\
  (forall l1 k l2, Forall (fun vt => exists t, str_to_fixed (snd vt) = Ret t) l1 ->
     Option (l1 ++ (k, AObj o) :: l2) = Exc ValueError).
Proof.
  intros o Ho. pose proof (str_to_fixed_object o Ho) as E.
  assert (HA : forall l1 l2, Forall (fun a => exists t, str_to_fixed a = Ret t) l1 ->
                 Append (l1 ++ AObj o :: l2) = Exc ValueError).
  { intros l1 l2 H1. unfold Append.
    rewrite (mapM_first_error str_to_fixed l1 (AObj o) l2 ValueError H1 E).
    reflexivity. }
  refine (conj HA (conj _ (conj _ (conj _ (conj _ (conj _ _)))))).
  - intros it tr. unfold Repeat. rewrite E. reflexivity.
  - intros lab it d tr st. unfold NumberedList.
    refine (conj _ (conj _ _)).
    + change [AObj o; it] with ([] ++ AObj o :: [it]). rewrite (HA [] [it]).
      * reflexivity.
      * constructor.
    + intros Hl. change [lab; AObj o] with ([lab] ++ AObj o :: []).
      rewrite (HA [lab] []); [reflexivity|]. constructor; [exact Hl | constructor].
    + intros [t Ht]. rewrite Ht. cbn [bind]. rewrite E. reflexivity.
  - intros c sfx. unfold Affix. rewrite E. reflexivity.
  - intros Hn. split.
    + intros pre c [t Ht]. unfold Affix. rewrite Ht. cbn [bind].
      destruct o as [| | | s | | |]; try (exfalso; apply Hn; reflexivity);
        try (exfalso; exact (Ho s eq_refl)); reflexivity.
    + intros c. unfold Suffix, Affix. cbn [str_to_fixed bind].
      destruct o as [| | | s | | |]; try (exfalso; apply Hn; reflexivity);
        try (exfalso; exact (Ho s eq_refl)); reflexivity.
  - intros l1 n l2 H1. unfold Record.
    rewrite (mapM_first_error _ l1 (n, AObj o) l2 ValueError (pair_converts l1 H1));
      [reflexivity | cbn [snd bind]; rewrite E; reflexivity].
  - intros l1 k l2 H1. unfold Option.
    rewrite (mapM_first_error _ l1 (k, AObj o) l2 ValueError (pair_converts l1 H1));
      [reflexivity | cbn [snd bind]; rewrite E; reflexivity].
Qed.

(** X8 at [Append("a", 5)], [Affix("Q: ", NUM, 5)] and
    [Record(a="x", b=5)]. *)
Lemma constructors_reject_objects_witness :
  Append [AObj (VStr (txt "a")); AObj (VInt 5)] = Exc ValueError /\
  Affix (AObj (VStr (txt "Q: "))) (ATmpl NUM) (AObj (VInt 5)) = Exc ValueError /\
  Record ([(txt "a", AObj (VStr (txt "x")))] ++ (txt "b", AObj (VInt 5)) :: [])
  = Exc ValueError.
Proof.
  assert (Ho : forall s, VInt 5 <> VStr s) by (intros s H; discriminate H).
  refine (conj _ (conj _ _)).
  - apply (proj1 (constructors_reject_objects (VInt 5) Ho)
             [AObj (VStr (txt "a"))] []).
    constructor; [eexists; reflexivity | constructor].
  - apply (proj1 (proj1 (proj2 (proj2 (proj2 (proj2
             (constructors_reject_objects (VInt 5) Ho))))) ltac:(discriminate))
             (AObj (VStr (txt "Q: "))) (ATmpl NUM)).
    eexists; reflexivity.
  - apply (proj1 (proj2 (proj2 (proj2 (proj2 (proj2
             (constructors_reject_objects (VInt 5) Ho))))))
             [(txt "a", AObj (VStr (txt "x")))] (txt "b") []).
    constructor; [eexists; reflexivity | constructor].
Defined.

(** ** Repeat with a non-template item *)



(** ** Integer._match *)
Lemma str_to_uint_zeros :
  forall k l, str_to_uint (repeat "0"%char k ++ l)
              = option_map (Nat.iter k Decimal.D0) (str_to_uint l).
Proof.
  induction k as [|k IH]; intros l; simpl.
  - destruct (str_to_uint l); reflexivity.
  - rewrite IH. destruct (str_to_uint l); reflexivity.
Qed.

Lemma zeros_digits :
  forall k, Forall (fun c => is_digit c = true) (repeat "0"%char k).
Proof. induction k; constructor; [reflexivity | assumption]. Qed.

Lemma of_int_zeros :
  forall k u (neg : bool),
  Z.of_int (if neg then Decimal.Neg (Nat.iter k Decimal.D0 u)
            else Decimal.Pos (Nat.iter k Decimal.D0 u))
  = Z.of_int (if neg then Decimal.Neg u else Decimal.Pos u).
Proof.
  intros k u neg. induction k as [|k IH]; [reflexivity|].
  rewrite <- IH. set (d := Nat.iter k Decimal.D0 u).
  change (Nat.iter (S k) Decimal.D0 u) with (Decimal.D0 d).
  destruct neg.
  - rewrite <- (DecimalZ.of_int_norm (Decimal.Neg (Decimal.D0 d))),
            <- (DecimalZ.of_int_norm (Decimal.Neg d)). reflexivity.
  - rewrite <- (DecimalZ.of_int_norm (Decimal.Pos (Decimal.D0 d))),
            <- (DecimalZ.of_int_norm (Decimal.Pos d)). reflexivity.
Qed.

Lemma integer_match_digits :
  forall (neg : bool) c ds rest s p u,
  Forall (fun c => is_digit c = true) (c :: ds) ->
  length (c :: ds) <= int_max_str_digits ->
  starts_with_digit rest = false ->
  str_to_uint (c :: ds) = Some u ->
  skipn p s = (if neg then "-"%char :: c :: ds else c :: ds) ++ rest ->
  integer_match s p
  = Ret (VInt (Z.of_int (if neg then Decimal.Neg u else Decimal.Pos u)),
         p + length (if neg then "-"%char :: c :: ds else c :: ds)).
Proof.
  intros neg c ds rest s p u Hd Hl Hr Hu Hs. unfold integer_match.
  apply Nat.ltb_ge in Hl.
  inversion Hd as [|? ? Hc _]; subst.
  destruct (digit_not_sign c Hc) as [H1 H2].
  assert (Hre : re_match integer_pattern
                  ((if neg then "-"%char :: c :: ds else c :: ds) ++ rest)
                = Ret (Some (length (if neg then "-"%char :: c :: ds else c :: ds)))).
  { unfold re_match. rewrite re_compile_integer. f_equal. destruct neg.
    - apply (hd_ends_seq _ _ _ 1 (length (c :: ds))); [reflexivity|].
      exact (digits_head c ds rest Hd Hr).
    - apply (hd_ends_seq _ _ _ 0 (length (c :: ds))).
      + simpl. rewrite H1. reflexivity.
      + exact (digits_head c ds rest Hd Hr). }
  rewrite (regex_match_read _ _ _ s p Hre Hs). cbn [bind].
  destruct neg; unfold py_int.
  - rewrite Ascii.eqb_refl. unfold digits_to_Z. rewrite Hl, Hu. reflexivity.
  - rewrite H1, H2. unfold digits_to_Z. rewrite Hl, Hu. reflexivity.
Qed.

(** X10: [Integer._match] reads leading zeros: [k] zeros then the decimal
    digits of [z >= 0], at most [int_max_str_digits] digits in all and not
    followed by a digit, read as [z], and with a minus sign in front as
    [-z]; the cursor moves past all of them. *)
Theorem integer_leading_zeros :
  forall k z rest s p, (0 <= z)%Z ->
  k + length (show_Z z) <= int_max_str_digits ->
  starts_with_digit rest = false ->
  (skipn p s = repeat "0"%char k ++ show_Z z ++ rest ->
   tmatch TInteger s p = Ret (VInt z, p + k + length (show_Z z))) /\
  (skipn p s = "-"%char :: repeat "0"%char k ++ show_Z z ++ rest ->
   tmatch TInteger s p = Ret (VInt (- z), p + 1 + k + length (show_Z z))).
Proof.
  intros k z rest s p Hz Hlen Hr.
  assert (Hpos : exists u, Z.to_int z = Decimal.Pos u).
  { destruct z; [eexists; reflexivity | eexists; reflexivity | lia]. }
  destruct Hpos as [u Eu].
  pose proof (DecimalZ.of_to z) as Hoz. rewrite Eu in Hoz.
  pose proof (to_int_not_nil z) as Hn. rewrite Eu in Hn.
  unfold show_Z. rewrite Eu.
  assert (Hw : exists c w, repeat "0"%char k ++ uint_to_str u = c :: w).
  { destruct (uint_to_str_nonempty u Hn) as [c [w E]]. rewrite E.
    destruct k; simpl; eexists; eexists; reflexivity. }
  destruct Hw as [c [w Ew]].
  assert (Hl : length (c :: w) <= int_max_str_digits).
  { rewrite <- Ew, length_app, repeat_length. unfold show_Z in Hlen.
    rewrite Eu in Hlen. exact Hlen. }
  assert (Hd : Forall (fun c => is_digit c = true) (c :: w)).
  { rewrite <- Ew. apply Forall_app. split; [apply zeros_digits | apply uint_to_str_digits]. }
  assert (Hu : str_to_uint (c :: w) = Some (Nat.iter k Decimal.D0 u)).
  { rewrite <- Ew, str_to_uint_zeros, str_to_uint_to_str. reflexivity. }
  split; intros Hs; simpl tmatch.
  - rewrite app_assoc, Ew in Hs.
    rewrite (integer_match_digits false c w rest s p _ Hd Hl Hr Hu Hs).
    rewrite (of_int_zeros k u false), Hoz, <- Ew, length_app, repeat_length.
    f_equal. f_equal. lia.
  - rewrite app_assoc, Ew in Hs.
    rewrite (integer_match_digits true c w rest s p _ Hd Hl Hr Hu Hs).
    rewrite (of_int_zeros k u true). simpl Z.of_int.
    change (Z.of_uint u) with (Z.of_int (Decimal.Pos u)). rewrite Hoz.
    change (length ("-"%char :: c :: w)) with (1 + length (c :: w)).
    rewrite <- Ew, length_app, repeat_length.
    f_equal. f_equal. lia.
Qed.

Lemma integer_leading_zeros_witness :
  tmatch TInteger (txt "007x") 0 = Ret (VInt 7, 0 + 2 + length (show_Z 7)) /\
  tmatch TInteger (txt "-007x") 0 = Ret (VInt (- 7), 0 + 1 + 2 + length (show_Z 7)).
Proof.
  assert (Hz : (0 <= 7)%Z) by lia.
  assert (Hl : 2 + length (show_Z 7) <= int_max_str_digits)
    by (apply Nat.leb_le; vm_compute; reflexivity).
  assert (Hr : starts_with_digit (txt "x") = false) by reflexivity.
  split.
  - apply (proj1 (integer_leading_zeros 2 7 (txt "x") (txt "007x") 0 Hz Hl Hr)).
    reflexivity.
  - apply (proj2 (integer_leading_zeros 2 7 (txt "x") (txt "-007x") 0 Hz Hl Hr)).
    reflexivity.
Defined.

(** ** Integers beyond the digit limit *)
Lemma integer_match_too_long :
  forall (neg : bool) c ds rest s p,
  Forall (fun c => is_digit c = true) (c :: ds) ->
  int_max_str_digits < length (c :: ds) ->
  starts_with_digit rest = false ->
  skipn p s = (if neg then "-"%char :: c :: ds else c :: ds) ++ rest ->
  integer_match s p = Ret (VNone, p).
Proof.
  intros neg c ds rest s p Hd Hl Hr Hs. unfold integer_match.
  apply Nat.ltb_lt in Hl.
  inversion Hd as [|? ? Hc _]; subst.
  destruct (digit_not_sign c Hc) as [H1 H2].
  assert (Hre : re_match integer_pattern
                  ((if neg then "-"%char :: c :: ds else c :: ds) ++ rest)
                = Ret (Some (length (if neg then "-"%char :: c :: ds else c :: ds)))).
  { unfold re_match. rewrite re_compile_integer. f_equal. destruct neg.
    - apply (hd_ends_seq _ _ _ 1 (length (c :: ds))); [reflexivity|].
      exact (digits_head c ds rest Hd Hr).
    - apply (hd_ends_seq _ _ _ 0 (length (c :: ds))).
      + simpl. rewrite H1. reflexivity.
      + exact (digits_head c ds rest Hd Hr). }
  rewrite (regex_match_read _ _ _ s p Hre Hs). cbn [bind].
  destruct neg; unfold py_int.
  - rewrite Ascii.eqb_refl. unfold digits_to_Z. rewrite Hl. reflexivity.
  - rewrite H1, H2. unfold digits_to_Z. rewrite Hl. reflexivity.
Qed.

(** X19: beyond [int_max_str_digits] digits, [Integer._match] catches the
    [ValueError] of [int()]: a run of more digits (after an optional minus
    sign), not followed by a digit, is not read, and the cursor goes back
    to the start. [Integer.fill] raises [ValueError] for an integer of more
    digits, through [str()], and fills every other integer. *)
Theorem integer_digit_limit :
  (forall (neg : bool) c ds rest s p,
     Forall (fun c => is_digit c = true) (c :: ds) ->
     int_max_str_digits < length (c :: ds) ->
     starts_with_digit rest = false ->
     skipn p s = (if neg then "-"%char :: c :: ds else c :: ds) ++ rest ->
     tmatch NUM s p = Ret (VNone, p)) /\
  (forall z, (fill NUM (VInt z) = Exc ValueError <->
              int_max_str_digits < length (show_Z (Z.abs z))) /\
             (int_str_ok z = true -> fill NUM (VInt z) = Ret (VStr (show_Z z)))).
Proof.
  split.
  - intros neg c ds rest s p Hd Hl Hr Hs.
    exact (integer_match_too_long neg c ds rest s p Hd Hl Hr Hs).
  - intros z. unfold NUM, Integer. cbn [fill is_none]. unfold py_str. cbn [str_ok].
    unfold int_str_ok. split.
    + destruct (length (show_Z (Z.abs z)) <=? int_max_str_digits) eqn:E;
        cbn [bind].
      * apply Nat.leb_le in E. split; intro H; [simpl in H; discriminate H | lia].
      * apply Nat.leb_gt in E. split; intro H; [exact E | reflexivity].
    + intros ->. reflexivity.
Qed.

(** X19 at a run of 4301 ones followed by ["x"], and at [10^4300], of 4301
    digits. *)
Lemma integer_digit_limit_witness :
  tmatch NUM (repeat "1"%char 4301 ++ txt "x") 0 = Ret (VNone, 0) /\
  fill NUM (VInt (10 ^ 4300)%Z) = Exc ValueError.
Proof.
  split.
  - apply (proj1 integer_digit_limit false "1"%char (repeat "1"%char 4300) (txt "x")
             (repeat "1"%char 4301 ++ txt "x") 0).
    + apply Forall_forall. intros x Hx. change ("1"%char :: repeat "1"%char 4300)
        with (repeat "1"%char 4301) in Hx.
      apply repeat_spec in Hx. subst x. reflexivity.
    + apply Nat.ltb_lt. vm_compute. reflexivity.
    + reflexivity.
    + reflexivity.
  - apply (proj2 (proj1 (proj2 integer_digit_limit (10 ^ 4300)%Z))).
    apply Nat.ltb_lt. vm_compute. reflexivity.
Defined.

(** ** Runs of characters; SPACE and SENTENCE *)
Lemma one_char_first_is :
  forall ok w, first_is ok w = false -> one_char ok w = [].
Proof. intros ok [|c w] H; simpl in *; [reflexivity|]. rewrite H. reflexivity. Qed.

Lemma star_run :
  forall r ok, (forall w, ends r w = one_char ok w) ->
  forall ds rest, Forall (fun c => ok c = true) ds -> first_is ok rest = false ->
  hd_error (ends (RStar r) (ds ++ rest)) = Some (length ds).
Proof.
  intros r ok Hr. induction ds as [|c ds IH]; intros rest Hds Hrest.
  - simpl app. rewrite ends_star_none; [reflexivity|].
    rewrite Hr. apply one_char_first_is, Hrest.
  - inversion Hds as [|? ? Hc Hds']; subst. simpl app.
    rewrite ends_star_one.
    + specialize (IH rest Hds' Hrest).
      destruct (ends (RStar r) (ds ++ rest)); [discriminate|].
      injection IH as ->. reflexivity.
    + rewrite Hr. simpl. rewrite Hc. reflexivity.
Qed.

Lemma in_ranges_points :
  forall c l, in_ranges c (map (fun x => (x, x)) l) = existsb (Ascii.eqb c) l.
Proof.
  intros c l. induction l as [|x l IH]; [reflexivity|].
  unfold in_ranges in *. simpl. rewrite IH. f_equal.
  destruct (Ascii.eqb_spec c x) as [->|Hne].
  - rewrite Nat.leb_refl. reflexivity.
  - destruct (nat_of_ascii x <=? nat_of_ascii c) eqn:E1;
      destruct (nat_of_ascii c <=? nat_of_ascii x) eqn:E2; try reflexivity.
    exfalso. apply Hne. apply Nat.leb_le in E1. apply Nat.leb_le in E2.
    rewrite <- (ascii_nat_embedding c), <- (ascii_nat_embedding x).
    f_equal. lia.
Qed.

Lemma re_compile_space :
  re_compile (txt " +") = Some (RSeq (RSeq (RChar " "%char) (RStar (RChar " "%char))) REps).
Proof. reflexivity. Qed.

Lemma spaces_all : forall n, Forall (fun c => Ascii.eqb c " "%char = true) (repeat " "%char n).
Proof. induction n; constructor; [reflexivity | assumption]. Qed.

(** X11: [SPACE] reads a whole run of spaces and returns it, while its
    [fill] always gives one space; where no space is, it fails with the
    cursor unmoved. *)
Theorem space_reads_run :
  (forall n rest s p, first_is (fun c => Ascii.eqb c " "%char) rest = false ->
   skipn p s = repeat " "%char (S n) ++ rest ->
   tmatch SPACE s p = Ret (VStr (repeat " "%char (S n)), p + S n) /\
   (forall v, fill SPACE v = Ret (VStr (txt " ")))) /\
  (forall s p, first_is (fun c => Ascii.eqb c " "%char) (skipn p s) = false ->
   tmatch SPACE s p = Ret (VNone, p)).
Proof.
  split.
  - intros n rest s p Hr Hs. split; [|reflexivity].
    assert (Hre : re_match (txt " +") (repeat " "%char (S n) ++ rest)
                  = Ret (Some (length (repeat " "%char (S n))))).
    { unfold re_match. rewrite re_compile_space. f_equal.
      rewrite repeat_length.
      transitivity (Some (S n + 0)); [|f_equal; lia].
      apply (hd_ends_seq _ _ _ (S n) 0); [|reflexivity].
      apply (hd_ends_seq _ _ _ 1 n); [reflexivity|].
      simpl skipn. rewrite <- (repeat_length " "%char n) at 2.
      apply (star_run _ (fun c => Ascii.eqb c " "%char)); [reflexivity| |exact Hr].
      apply spaces_all. }
    change (tmatch SPACE s p) with (regex_match (txt " +") s p).
    rewrite (regex_match_read _ _ _ s p Hre Hs), repeat_length. reflexivity.
  - intros s p H. change (tmatch SPACE s p) with (regex_match (txt " +") s p).
    unfold regex_match, re_match. rewrite re_compile_space.
    destruct (skipn p s) as [|c w]; [reflexivity|]. simpl in H.
    simpl. rewrite H. reflexivity.
Qed.

Lemma space_reads_run_witness :
  tmatch SPACE (txt "a   b") 1 = Ret (VStr (repeat " "%char 3), 1 + 3) /\
  tmatch SPACE (txt "a   b") 0 = Ret (VNone, 0).
Proof.
  split.
  - apply (proj1 space_reads_run 2 (txt "b") (txt "a   b") 1); reflexivity.
  - apply (proj2 space_reads_run). reflexivity.
Defined.

Lemma re_compile_sentence :
  re_compile (txt "[^\n\.\?\!]+[\.\?\!]?")
  = Some (RSeq (RSeq sentence_body (RStar sentence_body))
               (RSeq (ROpt sentence_tail) REps)).
Proof. reflexivity. Qed.

Lemma ends_sentence_body :
  forall w, ends sentence_body w = one_char (fun c => negb (sentence_stop c)) w.
Proof.
  intros [|c w]; [reflexivity|].
  change (ends sentence_body (c :: w))
    with (if xorb true (in_ranges c (map (fun x => (x, x))
                                       [nl; "."%char; "?"%char; "!"%char]))
          then [1] else []).
  rewrite in_ranges_points. reflexivity.
Qed.

Lemma ends_sentence_tail :
  forall w, ends sentence_tail w = one_char sentence_end w.
Proof.
  intros [|c w]; [reflexivity|].
  change (ends sentence_tail (c :: w))
    with (if xorb false (in_ranges c (map (fun x => (x, x))
                                        ["."%char; "?"%char; "!"%char]))
          then [1] else []).
  rewrite in_ranges_points. reflexivity.
Qed.

Lemma sentence_run :
  forall w rest, w <> [] -> Forall (fun c => sentence_stop c = false) w ->
  first_is (fun c => negb (sentence_stop c)) rest = false ->
  hd_error (ends (RSeq sentence_body (RStar sentence_body)) (w ++ rest))
  = Some (length w).
Proof.
  intros [|c w] rest Hne Hw Hr; [congruence|].
  inversion Hw as [|? ? Hc Hw']; subst.
  apply (hd_ends_seq _ _ _ 1 (length w)).
  - rewrite ends_sentence_body. simpl. rewrite Hc. reflexivity.
  - simpl skipn. apply (star_run _ (fun c => negb (sentence_stop c)) ends_sentence_body).
    + eapply Forall_impl; [|exact Hw']. intros a Ha. rewrite Ha. reflexivity.
    + exact Hr.
Qed.

(** X12: [SENTENCE] reads a non-empty run of characters other than a
    newline, [.], [?] and [!], followed by one of [.], [?], [!] if there is
    one; it stops before a newline or at the end of the text, and fails
    with the cursor unmoved where the text begins with none of them. *)
Theorem sentence_reads :
  (forall w rest s p, w <> [] -> Forall (fun c => sentence_stop c = false) w ->
   (rest = [] \/ exists r, rest = nl :: r) ->
   skipn p s = w ++ rest ->
   tmatch SENTENCE s p = Ret (VStr w, p + length w)) /\
  (forall w t rest s p, w <> [] -> Forall (fun c => sentence_stop c = false) w ->
   sentence_end t = true ->
   skipn p s = w ++ t :: rest ->
   tmatch SENTENCE s p = Ret (VStr (w ++ [t]), p + S (length w))) /\
  (forall s p, first_is (fun c => negb (sentence_stop c)) (skipn p s) = false ->
   tmatch SENTENCE s p = Ret (VNone, p)).
Proof.
  refine (conj _ (conj _ _)).
  - intros w rest s p Hne Hw Hrest Hs.
    assert (Hre : re_match (txt "[^\n\.\?\!]+[\.\?\!]?") (w ++ rest)
                  = Ret (Some (length w))).
    { unfold re_match. rewrite re_compile_sentence. f_equal.
      transitivity (Some (length w + 0)); [|f_equal; lia].
      apply hd_ends_seq.
      - apply sentence_run; [exact Hne | exact Hw |].
        destruct Hrest as [->|[r ->]]; reflexivity.
      - rewrite skipn_app, skipn_all, Nat.sub_diag. simpl app.
        destruct Hrest as [->|[r ->]]; reflexivity. }
    exact (regex_match_read _ _ _ s p Hre Hs).
  - intros w t rest s p Hne Hw Ht Hs.
    assert (Hre : re_match (txt "[^\n\.\?\!]+[\.\?\!]?") ((w ++ [t]) ++ rest)
                  = Ret (Some (length (w ++ [t])))).
    { unfold re_match. rewrite re_compile_sentence. f_equal.
      rewrite <- app_assoc. simpl app.
      rewrite length_app. simpl length.
      apply hd_ends_seq.
      - apply sentence_run; [exact Hne | exact Hw |].
        simpl. unfold sentence_end in Ht. unfold sentence_stop. simpl in *.
        destruct (Ascii.eqb t nl); simpl; [reflexivity|]. rewrite Ht. reflexivity.
      - rewrite skipn_app, skipn_all, Nat.sub_diag. simpl app.
        apply (hd_ends_seq _ _ _ 1 0); [|reflexivity].
        change (hd_error (ends sentence_tail (t :: rest) ++ [0]) = Some 1).
        rewrite ends_sentence_tail. cbn [one_char]. rewrite Ht. reflexivity. }
    change (w ++ t :: rest) with (w ++ [t] ++ rest) in Hs. rewrite app_assoc in Hs.
    change (tmatch SENTENCE s p)
      with (regex_match (txt "[^\n\.\?\!]+[\.\?\!]?") s p).
    rewrite (regex_match_read _ _ _ s p Hre Hs), length_app. simpl length.
    f_equal. f_equal. lia.
  - intros s p H. change (tmatch SENTENCE s p)
      with (regex_match (txt "[^\n\.\?\!]+[\.\?\!]?") s p).
    unfold regex_match, re_match. rewrite re_compile_sentence.
    assert (E : ends sentence_body (skipn p s) = [])
      by (rewrite ends_sentence_body; apply one_char_first_is, H).
    change (ends (RSeq (RSeq sentence_body (RStar sentence_body))
                       (RSeq (ROpt sentence_tail) REps)) (skipn p s))
      with (flat_map (fun k => map (Nat.add k)
              (ends (RSeq (ROpt sentence_tail) REps) (skipn k (skipn p s))))
              (flat_map (fun k => map (Nat.add k)
                 (ends (RStar sentence_body) (skipn k (skipn p s))))
                 (ends sentence_body (skipn p s)))).
    rewrite E. reflexivity.
Qed.

Lemma sentence_reads_witness :
  tmatch SENTENCE (txt "Is it?") 0 = Ret (VStr (txt "Is it" ++ ["?"%char]), 0 + S 5) /\
  tmatch SENTENCE (txt "A b" ++ [nl]) 0 = Ret (VStr (txt "A b"), 0 + 3) /\
  tmatch SENTENCE (txt "x.") 1 = Ret (VNone, 1).
Proof.
  refine (conj _ (conj _ _)).
  - apply (proj1 (proj2 sentence_reads) (txt "Is it") "?"%char [] (txt "Is it?") 0);
      [discriminate | repeat constructor | reflexivity | reflexivity].
  - apply (proj1 sentence_reads (txt "A b") [nl] (txt "A b" ++ [nl]) 0);
      [discriminate | repeat constructor | right; eexists; reflexivity | reflexivity].
  - apply (proj2 (proj2 sentence_reads)). reflexivity.
Defined.

(** ** Affix round trip *)

(** X13: an [Affix] of [Fixed] prefix and suffix reads back its rendering
    when its content does and the prefix and suffix patterns accept exactly
    their text there; the same holds without suffix. *)
Theorem affix_reads_back :
  (forall a pa c v f b pb rest,
   re_match pa (a ++ f ++ b ++ rest) = Ret (Some (length a)) ->
   reads_back c v f (b ++ rest) -> v <> VNone ->
   re_match pb (b ++ rest) = Ret (Some (length b)) ->
   reads_back (TAffix (TFixed a pa) c (Some (TFixed b pb))) v (a ++ f ++ b) rest) /\
  (forall a pa c v f rest,
   re_match pa (a ++ f ++ rest) = Ret (Some (length a)) ->
   reads_back c v f rest -> v <> VNone ->
   reads_back (TAffix (TFixed a pa) c None) v (a ++ f) rest).
Proof.
  split.
  - intros a pa c v f b pb rest Ha [Hf Hm] Hv Hb. split.
    + simpl. rewrite Hf. simpl. rewrite (is_none_false v Hv). simpl.
      rewrite app_assoc. reflexivity.
    + intros s p Hs. rewrite <- !app_assoc in Hs. simpl.
      rewrite (regex_match_read _ _ _ s p Ha Hs). simpl.
      rewrite (Hm s (p + length a) (skipn_app_len _ _ _ _ Hs)).
      cbn [bind]. rewrite (is_none_false v Hv). simpl.
      pose proof (skipn_app_len _ _ _ _ (skipn_app_len _ _ _ _ Hs)) as Hs2.
      rewrite (regex_match_read _ _ _ s _ Hb Hs2). simpl.
      rewrite !length_app. f_equal. f_equal. lia.
  - intros a pa c v f rest Ha [Hf Hm] Hv. split.
    + simpl. rewrite Hf. reflexivity.
    + intros s p Hs. rewrite <- app_assoc in Hs. simpl.
      rewrite (regex_match_read _ _ _ s p Ha Hs). simpl.
      rewrite (Hm s (p + length a) (skipn_app_len _ _ _ _ Hs)).
      cbn [bind]. rewrite (is_none_false v Hv). rewrite length_app. f_equal. f_equal. lia.
Qed.

Lemma affix_reads_back_witness :
  reads_back (TAffix (Fixed (txt "Q: ")) SENTENCE (Some EOL)) (VStr sky)
    (txt "Q: " ++ sky ++ [nl]) [] /\
  reads_back (TAffix (Fixed (txt "A: ")) SENTENCE None) (VStr sky)
    (txt "A: " ++ sky) [].
Proof.
  split.
  - apply (proj1 affix_reads_back).
    + vm_compute. reflexivity.
    + apply RT_reads_back. apply RT_pattern; vm_compute; reflexivity.
    + discriminate.
    + vm_compute. reflexivity.
  - apply (proj2 affix_reads_back).
    + vm_compute. reflexivity.
    + apply RT_reads_back. apply RT_pattern; vm_compute; reflexivity.
    + discriminate.
Defined.

(** ** Repeat and a delimiter after the last item *)

(** X14: when the text has a delimiter after the last item and no item
    follows it, [Repeat._match] reads the same list with and without
    [trailing_delimiter]: without, it stops before that delimiter; with, it
    consumes it. *)
Theorem repeat_trailing_text :
  forall it d pat vs f rest s p,
  d <> [] -> Chain it d pat vs f (d ++ rest) ->
  re_match pat (d ++ rest) = Ret (Some (length d)) -> fails_at it rest ->
  skipn p s = f ++ d ++ rest ->
  tmatch (TRepeat it (TFixed d pat) false) s p = Ret (VList vs, p + length f) /\
  tmatch (TRepeat it (TFixed d pat) true) s p
  = Ret (VList vs, p + length f + length d).
Proof.
  intros it d pat vs f rest s p Hd Hc Hre Hfa Hs. split.
  - assert (Hend : repeat_end it pat (d ++ rest)).
    { right. exists (length d). split; [exact Hre|]. split; [exact (length_pos d Hd)|].
      intros s' p' Hs'. rewrite skipn_app, skipn_all, Nat.sub_diag in Hs'.
      exists p'. exact (Hfa s' p' Hs'). }
    destruct (RT_reads_back _ _ _ _ (RT_repeat it d pat vs f (d ++ rest) Hc Hend))
      as [_ Hm].
    exact (Hm s p Hs).
  - destruct (RT_reads_back _ _ _ _ (RT_repeat_trailing it d pat vs f rest Hd Hc Hre Hfa))
      as [_ Hm].
    rewrite app_assoc in Hs. rewrite (Hm s p Hs), length_app, Nat.add_assoc.
    reflexivity.
Qed.

Lemma letters_fail_end : fails_at letters [].
Proof.
  intros s p H. change (tmatch letters s p) with (regex_match (txt "[a-z]+") s p).
  unfold regex_match. rewrite H. reflexivity.
Qed.

Lemma repeat_trailing_text_witness :
  tmatch (TRepeat letters (Fixed (txt ",")) false) (txt "a,b,") 0
  = Ret (VList [VStr (txt "a"); VStr (txt "b")], 0 + length (txt "a,b")) /\
  tmatch (TRepeat letters (Fixed (txt ",")) true) (txt "a,b,") 0
  = Ret (VList [VStr (txt "a"); VStr (txt "b")], 0 + length (txt "a,b") + length (txt ",")).
Proof.
  apply (repeat_trailing_text letters (txt ",") (txt ",")
           [VStr (txt "a"); VStr (txt "b")] (txt "a,b") []).
  - discriminate.
  - change (Chain letters (txt ",") (txt ",") [VStr (txt "a"); VStr (txt "b")]
              (txt "a" ++ txt "," ++ txt "b") (txt "," ++ [])).
    apply (Chain_cons _ _ _ _ _ (txt "a") (txt "b")); [discriminate | | vm_compute; reflexivity |].
    + apply RT_pattern; vm_compute; reflexivity.
    + apply Chain_one. apply RT_pattern; vm_compute; reflexivity.
  - vm_compute. reflexivity.
  - exact letters_fail_end.
  - reflexivity.
Defined.

(** ** [example.py] *)

Lemma example_template_eq :
  example_template
  = Ret (TAffix (Fixed example_header)
           (TRepeat example_record (Fixed [nl; nl]) false) None).
Proof. reflexivity. Qed.

Lemma mapM_snoc :
  forall {A B} (f : A -> result B) l x,
  mapM f (l ++ [x]) = (ys <- mapM f l;; y <- f x;; Ret (ys ++ [y])).
Proof.
  intros A B f l x. induction l as [|a l IH]; simpl.
  - destruct (f x); reflexivity.
  - destruct (f a); simpl; try reflexivity. rewrite IH.
    destruct (mapM f l); simpl; try reflexivity. destruct (f x); reflexivity.
Qed.

Lemma str_join_cons :
  forall d y l, str_join d (y :: l)
                = y ++ match l with [] => [] | _ :: _ => d ++ str_join d l end.
Proof. intros d y [|z l]; simpl; [rewrite app_nil_r|]; reflexivity. Qed.

Lemma str_join_snoc_app :
  forall d l r x, str_join d (l ++ [r ++ x]) = str_join d (l ++ [r]) ++ x.
Proof.
  intros d l r x. induction l as [|y l IH]; [reflexivity|].
  rewrite <- !app_comm_cons.
  rewrite (str_join_cons d y), (str_join_cons d y).
  destruct l as [|z l].
  - simpl. rewrite !app_assoc. reflexivity.
  - rewrite <- !app_comm_cons in *. rewrite IH. rewrite !app_assoc. reflexivity.
Qed.

Lemma py_join_snoc_app :
  forall d ys r x s, py_join d (ys ++ [VStr r]) = Ret s ->
  py_join d (ys ++ [VStr (r ++ x)]) = Ret (s ++ x).
Proof.
  intros d ys r x s H. unfold py_join in *. rewrite mapM_snoc in *.
  destruct (mapM _ ys) as [strs| |]; simpl in *; try discriminate.
  injection H as <-. rewrite str_join_snoc_app. reflexivity.
Qed.

Lemma example_record_answer :
  forall q b r, fill example_record (example_row q VNone) = Ret (VStr r) ->
  fill example_record (example_row q (VBool b)) = Ret (VStr (r ++ yes_no_text b)).
Proof.
  intros q b r H. unfold example_record, example_row in *.
  destruct q; simpl in *; try discriminate; injection H as <-; destruct b; simpl;
    rewrite <- ?app_assoc; reflexivity.
Qed.

(** X15: with the template of [example.py], the rendering of any rows
    whose last answer is [True] (or [False]) is the rendering of the same
    rows with that answer [None], followed by ["Yes"] (or ["No"]). *)
Theorem example_answer_completion :
  forall ctx q b a,
  build_fill example_template (VList (ctx ++ [example_row q VNone])) = Ret (VStr a) ->
  build_fill example_template (VList (ctx ++ [example_row q (VBool b)]))
  = Ret (VStr (a ++ yes_no_text b)).
Proof.
  intros ctx q b a H. unfold build_fill in *. rewrite example_template_eq in *.
  cbn [bind fill fill0 is_none py_iter] in *. rewrite mapM_snoc in *.
  destruct (mapM (fill example_record) ctx) as [ys| |]; cbn [bind] in *;
    try discriminate.
  destruct (fill example_record (example_row q VNone)) as [xr| |] eqn:Er;
    cbn [bind] in *; try discriminate.
  destruct xr; try (unfold repeat_join, py_join in H;
                    rewrite mapM_snoc in H; cbn [bind] in H;
                    destruct (mapM _ ys); discriminate H).
  rewrite (example_record_answer q b s Er). cbn [bind].
  unfold repeat_join in *. cbn [fill0 Fixed bind] in *.
  destruct (py_join [nl; nl] (ys ++ [VStr s])) as [j| |] eqn:Ej; cbn [bind] in H;
    try discriminate.
  rewrite (py_join_snoc_app _ _ _ (yes_no_text b) _ Ej). cbn [bind py_add].
  cbn [py_add bind] in H. injection H as <-. rewrite app_assoc. reflexivity.
Qed.

Lemma example_answer_completion_witness :
  build_fill example_template (VList (example_context ++ [example_row example_query VNone]))
  = Ret (VStr (example_header ++ txt "Q: Is the sky blue?" ++ [nl] ++ txt "A: Yes" ++
               [nl; nl] ++ txt "Q: Can fish play basketball?" ++ [nl] ++ txt "A: No" ++
               [nl; nl] ++ txt "Q: Can you eat soup with a spoon?" ++ [nl] ++ txt "A: ")) /\
  build_fill example_template (VList (example_context ++ [example_row example_query (VBool true)]))
  = Ret (VStr ((example_header ++ txt "Q: Is the sky blue?" ++ [nl] ++ txt "A: Yes" ++
               [nl; nl] ++ txt "Q: Can fish play basketball?" ++ [nl] ++ txt "A: No" ++
               [nl; nl] ++ txt "Q: Can you eat soup with a spoon?" ++ [nl] ++ txt "A: ")
               ++ yes_no_text true)).
Proof.
  assert (H : build_fill example_template
                (VList (example_context ++ [example_row example_query VNone]))
              = Ret (VStr (example_header ++ txt "Q: Is the sky blue?" ++ [nl] ++
                  txt "A: Yes" ++ [nl; nl] ++ txt "Q: Can fish play basketball?" ++ [nl] ++
                  txt "A: No" ++ [nl; nl] ++ txt "Q: Can you eat soup with a spoon?" ++
                  [nl] ++ txt "A: "))) by (vm_compute; reflexivity).
  exact (conj H (example_answer_completion _ _ true _ H)).
Defined.

(** ** NumberedList._match *)
Lemma repeat_loop_items :
  forall (P : value -> Prop) mi md,
  (forall q m q', mi q = Ret (m, q') -> m <> VNone -> P m) ->
  forall fuel p vals ir dm vals' q ir' dm',
  Forall P vals ->
  repeat_loop mi md fuel p vals ir dm = Ret (vals', q, ir', dm') ->
  Forall P vals'.
Proof.
  intros P mi md HP fuel. induction fuel as [|fuel IH];
    intros p vals ir dm vals' q ir' dm' Hv E; [discriminate|].
  simpl in E. destruct (mi p) as [[m p1]| |] eqn:Em; simpl in E; try discriminate.
  destruct (is_none m) eqn:Nm; [inversion E; subst; exact Hv|].
  assert (Hm : P m) by (apply (HP p m p1 Em); intros ->; discriminate Nm).
  assert (Hv' : Forall P (vals ++ [m])) by (apply Forall_app; split; [exact Hv|constructor; [exact Hm|constructor]]).
  destruct (md p1) as [[d p2]| |]; simpl in E; try discriminate.
  destruct (is_none d); [inversion E; subst; exact Hv'|].
  destruct (p2 =? p); [discriminate|]. exact (IH _ _ _ _ _ _ _ _ Hv' E).
Qed.

Lemma mapM_index1_pairs :
  forall pairs : list (value * value),
  mapM py_index1 (map (fun xy => VTuple [fst xy; snd xy]) pairs) = Ret (map snd pairs).
Proof.
  induction pairs as [|[x y] pairs IH]; [reflexivity|]. simpl. rewrite IH. reflexivity.
Qed.

Lemma Forall_pairs :
  forall vals, Forall (fun m => exists x y, m = VTuple [x; y]) vals ->
  exists pairs : list (value * value),
    vals = map (fun xy => VTuple [fst xy; snd xy]) pairs.
Proof.
  intros vals H. induction H as [|m vals [x [y ->]] _ [pairs ->]].
  - exists []. reflexivity.
  - exists ((x, y) :: pairs). reflexivity.
Qed.

(** X16: [NumberedList._match] adds no failure to the [Repeat] it extends:
    when [Repeat._match] over [Append(label, item)] returns a list, each
    element is a pair, and [NumberedList._match] returns the list of their
    second components with the same cursor. *)
Theorem numbered_list_match_items :
  forall lab item d tr st s p vals q,
  tmatch (TRepeat (TAppend [lab; item]) d tr) s p = Ret (VList vals, q) ->
  exists pairs : list (value * value),
    vals = map (fun xy => VTuple [fst xy; snd xy]) pairs /\
    tmatch (TNumberedList (TAppend [lab; item]) d tr st) s p
    = Ret (VList (map snd pairs), q).
Proof.
  intros lab item d tr st s p vals q E.
  change (tmatch (TRepeat (TAppend [lab; item]) d tr) s p)
    with (repeat_match (tmatch (TAppend [lab; item]) s) (tmatch d s) tr s p) in E.
  assert (Hall : Forall (fun m => exists x y, m = VTuple [x; y]) vals).
  { unfold repeat_match in E.
    destruct (repeat_loop (tmatch (TAppend [lab; item]) s) (tmatch d s)
                (S (length s - p)) p [] p VNone) as [[[[vs q1] ir] dm]| |] eqn:El;
      simpl in E; try discriminate.
    injection E as <- _.
    refine (repeat_loop_items _ _ _ _ _ _ _ _ _ _ _ _ _ (Forall_nil _) El).
    intros q0 m q' Hm Hn.
    destruct (append_loop_arity _ [lab; item] q0 [] m q' (Forall_nil _) Hm)
      as [->|[[|x [|y [|z ms]]] [-> [Hl _]]]]; try (simpl in Hl; lia).
    - exfalso. apply Hn. reflexivity.
    - exists x, y. reflexivity. }
  destruct (Forall_pairs vals Hall) as [pairs ->].
  exists pairs. split; [reflexivity|].
  change (tmatch (TNumberedList (TAppend [lab; item]) d tr st) s p) with
    (x <- repeat_match (tmatch (TAppend [lab; item]) s) (tmatch d s) tr s p;;
     let '(sm, q) := x in
     match sm with
     | VList pairs => ys <- mapM py_index1 pairs;; Ret (VList ys, q)
     | _ => Ret (VNone, q)
     end).
  rewrite E. cbn [bind]. rewrite mapM_index1_pairs. reflexivity.
Qed.

Lemma numbered_list_match_items_witness :
  exists pairs : list (value * value),
    [VTuple [VInt 1; VStr (txt "a")]; VTuple [VInt 2; VStr (txt "b")]]
    = map (fun xy => VTuple [fst xy; snd xy]) pairs /\
    tmatch (TNumberedList (TAppend [NUM; letters]) (Fixed (txt ",")) false 1)
      (txt "1a,2b") 0 = Ret (VList (map snd pairs), 5).
Proof.
  apply (numbered_list_match_items NUM letters (Fixed (txt ",")) false 1 (txt "1a,2b") 0).
  vm_compute. reflexivity.
Defined.

(** ** fill() without argument *)
Lemma fill0_other :
  forall t, (forall d pat, t <> TFixed d pat) -> (forall o, t <> TRaw o) ->
  fill0 t = Exc TypeError.
Proof.
  intros [o| d pat | | | | | | | |] H1 H2; try reflexivity.
  - exfalso. exact (H2 o eq_refl).
  - exfalso. exact (H1 d pat eq_refl).
Qed.

(** X17: [fill()] is called without argument on the prefix and suffix of
    [Affix], the delimiter of [Repeat] and the templates of [Option]; a
    template there other than [Fixed] makes [fill] raise [TypeError]. *)
Theorem fill_without_argument :
  (forall pre c sfx v, (forall d pat, pre <> TFixed d pat) -> (forall o, pre <> TRaw o) ->
   fill (TAffix pre c sfx) v = Exc TypeError) /\
  (forall a pa c st v w, (forall d pat, st <> TFixed d pat) -> (forall o, st <> TRaw o) ->
   v <> VNone -> fill c v = Ret (VStr w) ->
   fill (TAffix (TFixed a pa) c (Some st)) v = Exc TypeError) /\
  (forall it d tr v, (forall dd pat, d <> TFixed dd pat) -> (forall o, d <> TRaw o) ->
   v <> VNone -> fill (TRepeat it d tr) v = Exc TypeError) /\
  (forall l1 k t l2 v, (forall d pat, t <> TFixed d pat) -> (forall o, t <> TRaw o) ->
   v <> VNone -> hashable v = true ->
   Forall (fun kt => py_eq (fst kt) v = false) l1 -> py_eq k v = true ->
   fill (TOption (l1 ++ (k, t) :: l2)) v = Exc TypeError).
Proof.
  refine (conj _ (conj _ (conj _ _))).
  - intros pre c sfx v H1 H2. simpl. rewrite (fill0_other pre H1 H2). reflexivity.
  - intros a pa c st v w H1 H2 Hv Hc. simpl. rewrite Hc. simpl.
    rewrite (is_none_false v Hv), (fill0_other st H1 H2). reflexivity.
  - intros it d tr v H1 H2 Hv. simpl. rewrite (is_none_false v Hv).
    rewrite (fill0_other d H1 H2). reflexivity.
  - intros l1 k t l2 v H1 H2 Hv Hh Hl Hk. simpl. rewrite (is_none_false v Hv).
    unfold option_lookup. rewrite Hh, (find_after l1 v (k, t) l2 Hl Hk). simpl.
    rewrite (fill0_other t H1 H2). reflexivity.
Qed.

Lemma fill_without_argument_witness :
  fill (TAffix NUM (TRaw (VStr (txt " "))) None) (VInt 1) = Exc TypeError /\
  build_fill record_doc (VDict [(txt "a", VInt 1); (txt "b", VInt 2)]) = Exc TypeError /\
  fill (TRepeat SENTENCE NUM false) (VList [VStr (txt "a")]) = Exc TypeError.
Proof.
  assert (H : fill (TAffix NUM (TRaw (VStr (txt " "))) None) (VInt 1) = Exc TypeError).
  { apply (proj1 fill_without_argument); intros; discriminate. }
  refine (conj H (conj _ _)).
  - vm_compute. reflexivity.
  - apply (proj1 (proj2 (proj2 fill_without_argument))); intros; discriminate.
Defined.

(** ** Repeat after a failed item *)

(** X18: when the item fails at the start, [Repeat._match] returns the
    empty list with the cursor where the failed item left it. *)
Theorem repeat_first_item_fails :
  forall it d tr s p q, tmatch it s p = Ret (VNone, q) ->
  tmatch (TRepeat it d tr) s p = Ret (VList [], q).
Proof.
  intros it d tr s p q H.
  change (tmatch (TRepeat it d tr) s p)
    with (repeat_match (tmatch it s) (tmatch d s) tr s p).
  unfold repeat_match. simpl. rewrite H. reflexivity.
Qed.

Lemma repeat_first_item_fails_witness :
  tmatch (TAppend [NUM; SPACE]) (txt "12x") 0 = Ret (VNone, 2) /\
  tmatch (TRepeat (TAppend [NUM; SPACE]) (Fixed (txt ",")) false) (txt "12x") 0
  = Ret (VList [], 2).
Proof.
  assert (H : tmatch (TAppend [NUM; SPACE]) (txt "12x") 0 = Ret (VNone, 2))
    by (vm_compute; reflexivity).
  exact (conj H (repeat_first_item_fails _ _ _ _ _ _ H)).
Defined.
